(** * Vue-Optional-Helper: the Optional value type and its reactive adapters

    A shallow embedding of [src/Optional.ts], [src/ReactiveOptional.ts] and
    the [useMaybe] composable, with the properties of the specification
    stated and proved over it.

    JavaScript values are an inductive type; every closure frame created by
    [createOptional] (and by [useMaybe]) lives in a store, so that an
    Optional is a reference with an identity and "the receiver is not
    mutated" is a statement about that store.  Calls of user-supplied
    functions, exceptions, the observable cells of the host framework and
    the console are effects of a state-and-exception monad. *)

From Stdlib Require Import ZArith Lia.
From stdpp Require Import base list strings.

Local Open Scope Z_scope.
Local Open Scope string_scope.
Local Open Scope list_scope.

(** ** JavaScript values *)

(** The values that flow through the library.  Objects, Error objects and
    Optional instances are references: they carry the address that [===]
    compares. *)
Inductive JsValue : Type :=
  | JNull
  | JUndefined
  | JBool (b : bool)
  | JNum (n : Z)
  | JNaN
  | JStr (s : string)
  | JObj (addr : nat)
  | JError (addr : nat) (message : string)
  | JOptional (frame : nat).

(** [a === b] *)
Definition strict_eq (a b : JsValue) : bool :=
  match a, b with
  | JNull, JNull => true
  | JUndefined, JUndefined => true
  | JBool x, JBool y => Bool.eqb x y
  | JNum x, JNum y => Z.eqb x y
  | JStr x, JStr y => String.eqb x y
  | JObj x, JObj y => Nat.eqb x y
  | JError x _, JError y _ => Nat.eqb x y
  | JOptional x, JOptional y => Nat.eqb x y
  | _, _ => false
  end.

(** [a !== b] *)
Definition strict_neq (a b : JsValue) : bool := negb (strict_eq a b).

(** JavaScript's [ToBoolean]: what [if (v)] would test. *)
Definition truthy (v : JsValue) : bool :=
  match v with
  | JNull | JUndefined | JNaN => false
  | JBool b => b
  | JNum n => negb (Z.eqb n 0)
  | JStr s => negb (String.eqb s "")
  | JObj _ | JError _ _ | JOptional _ => true
  end.

(** The two absence markers. *)
Definition absence_marker (v : JsValue) : Prop := v = JNull \/ v = JUndefined.

Definition is_marker (v : JsValue) : bool :=
  match v with
  | JNull | JUndefined => true
  | _ => false
  end.

(** ** The world: stores and observable effects *)

Record World : Type := mkWorld {
  frames : list JsValue;          (* captured [value] of every closure frame *)
  cells : list JsValue;           (* content of every observable cell *)
  console : list (list JsValue);  (* arguments of every [console.error] call *)
  next_addr : nat;                (* next address for a [new] object *)
  calls : nat                     (* counter of the call-counting probe *)
}.

Definition set_frames (fs : list JsValue) (w : World) : World :=
  mkWorld fs (cells w) (console w) (next_addr w) (calls w).
Definition set_cells (cs : list JsValue) (w : World) : World :=
  mkWorld (frames w) cs (console w) (next_addr w) (calls w).
Definition set_console (l : list (list JsValue)) (w : World) : World :=
  mkWorld (frames w) (cells w) l (next_addr w) (calls w).
Definition set_next_addr (n : nat) (w : World) : World :=
  mkWorld (frames w) (cells w) (console w) n (calls w).
Definition set_calls (n : nat) (w : World) : World :=
  mkWorld (frames w) (cells w) (console w) (next_addr w) n.

(** ** Computations: state and exceptions *)

Inductive Outcome (A : Type) : Type :=
  | Ok (a : A)
  | Throw (e : JsValue).
Arguments Ok {A} a.
Arguments Throw {A} e.

Definition M (A : Type) : Type := World -> Outcome A * World.

Definition ret {A} (a : A) : M A := fun w => (Ok a, w).

Definition throw {A} (e : JsValue) : M A := fun w => (Throw e, w).

Definition bind {A B} (m : M A) (k : A -> M B) : M B :=
  fun w =>
    match m w with
    | (Ok a, w') => k a w'
    | (Throw e, w') => (Throw e, w')
    end.

Notation "'let*' x ':=' m 'in' k" := (bind m (fun x => k))
  (at level 10, x name, m at level 100, k at level 200).
Notation "m ';;' k" := (bind m (fun _ => k))
  (at level 100, k at level 200, right associativity).

(** [try { body } catch (error) { handler }] *)
Definition try_catch {A} (body : M A) (handler : JsValue -> M A) : M A :=
  fun w =>
    match body w with
    | (Ok a, w') => (Ok a, w')
    | (Throw e, w') => handler e w'
    end.

(** [new Error(message)] *)
Definition new_Error (message : string) : M JsValue :=
  fun w => (Ok (JError (next_addr w) message), set_next_addr (S (next_addr w)) w).

(** [console.error(...args)]: the diagnostic collaborator. *)
Definition console_error (args : list JsValue) : M unit :=
  fun w => (Ok tt, set_console (console w ++ [args]) w).

(** A call-counting probe around a user function. *)
Definition probe {A B} (fn : A -> M B) : A -> M B :=
  fun a w => fn a (set_calls (S (calls w)) w).

Definition probe0 {B} (fn : M B) : M B :=
  fun w => fn (set_calls (S (calls w)) w).

(** A user function without effects. *)
Definition pure {A B} (f : A -> B) : A -> M B := fun a => ret (f a).

(** The result and the final world of a computation. *)
Definition result_of {A} (m : M A) (w : World) : Outcome A := fst (m w).
Definition world_after {A} (m : M A) (w : World) : World := snd (m w).

Definition throws {A} (m : M A) (w : World) : Prop :=
  exists e, result_of m w = Throw e.

Definition returns {A} (m : M A) (w : World) : Prop :=
  exists a, result_of m w = Ok a.

(** A user function that never throws. *)
Definition no_throw {A} (m : M A) : Prop := forall w, returns m w.

(** No code can reach the captured [value] of a closure frame: whatever a
    user function does, the frames that exist stay as they are (it may
    create new ones). *)
Definition frame_stable {A} (m : M A) : Prop :=
  forall w, frames w `prefix_of` frames (world_after m w).

(** A computation that leaves the observable cells and the console as they
    are. *)
Definition reactive_state_kept {A} (m : M A) : Prop :=
  forall w, cells (world_after m w) = cells w /\
            console (world_after m w) = console w.

(** A computation that does not look at the observable cells or the
    console either: run in a world whose cells and console were replaced by
    any others, it gives the same result and leaves the same world, but for
    the replaced cells and console, which it leaves in place. *)
Definition reactive_blind {A} (m : M A) : Prop :=
  forall w cs l,
    m (set_cells cs (set_console l w))
    = (result_of m w, set_cells cs (set_console l (world_after m w))).

(** ** The host framework's observable cell *)

(** Modelled from the spec: [ref] and [computed] of the host framework
    ([import ... from 'vue']), which is not part of the sources.  The
    library consumes three capabilities of it: create a cell with an initial
    value, read its current content, write new content.  A computed view
    runs its getter when it is read and its setter when it is written. *)
Module Vue.

Definition Ref : Type := nat.

(** [ref(initial)] *)
Definition ref (initial : JsValue) : M Ref :=
  fun w => (Ok (length (cells w)), set_cells (cells w ++ [initial]) w).

(** [source.value] *)
Definition get (source : Ref) : M JsValue :=
  fun w => (Ok (default JUndefined (cells w !! source)), w).

(** [source.value = v] *)
Definition set (source : Ref) (v : JsValue) : M unit :=
  fun w => (Ok tt, set_cells (<[source := v]> (cells w)) w).

(** [computed(() => ...)] *)
Record ComputedRef (A : Type) : Type := { getter : M A }.
Arguments getter {A} c.

(** [computed({ get, set })] *)
Record WritableComputedRef (A : Type) : Type := {
  wget : M A;
  wset : A -> M unit
}.
Arguments wget {A} w.
Arguments wset {A} w a.

Definition computed {A} (g : M A) : ComputedRef A := {| getter := g |}.

Definition computed_rw {A} (g : M A) (s : A -> M unit) : WritableComputedRef A :=
  {| wget := g; wset := s |}.

(** [c.value] *)
Definition value {A} (c : ComputedRef A) : M A := getter c.

(** [view.value] and [view.value = a] *)
Definition read {A} (view : WritableComputedRef A) : M A := wget view.
Definition write {A} (view : WritableComputedRef A) (a : A) : M unit := wset view a.

End Vue.

(** ** Optional.ts *)

(** An Optional instance is the closure frame [createOptional] made for
    it. *)
Definition Optional : Type := nat.

(** The parameter [value] captured by the closures of frame [this]. *)
Definition captured (this : Optional) : M JsValue :=
  fun w => (Ok (default JUndefined (frames w !! this)), w).

Definition createOptional (value : JsValue) : M Optional :=
  fun w => (Ok (length (frames w)), set_frames (frames w ++ [value]) w).

Module Optional.

Definition isPresent (this : Optional) : M bool :=
  let* value := captured this in
  ret (strict_neq value JNull && strict_neq value JUndefined).

Definition isEmpty (this : Optional) : M bool :=
  let* value := captured this in
  ret (strict_eq value JNull || strict_eq value JUndefined).

Definition get (this : Optional) : M JsValue :=
  let* empty := isEmpty this in
  if empty then
    let* error := new_Error "No value present in Optional" in
    throw error
  else captured this.

Definition unwrap (this : Optional) : M JsValue := captured this.

Definition map (this : Optional) (mapper : JsValue -> M JsValue) : M Optional :=
  let* empty := isEmpty this in
  if empty then createOptional JUndefined
  else
    let* value := captured this in
    let* mapped := mapper value in
    createOptional mapped.

Definition flatMap (this : Optional) (mapper : JsValue -> M JsValue) : M Optional :=
  let* empty := isEmpty this in
  if empty then createOptional JUndefined
  else
    let* value := captured this in
    let* mapped := mapper value in
    createOptional mapped.

Definition filter (this : Optional) (predicate : JsValue -> M bool) : M Optional :=
  let* empty := isEmpty this in
  if empty then
    let* value := captured this in
    createOptional value
  else
    let* value := captured this in
    let* keep := predicate value in
    if keep then createOptional value else createOptional JUndefined.

Definition or (this : Optional) (supplier : M Optional) : M Optional :=
  let* present := isPresent this in
  if present then
    let* value := captured this in
    createOptional value
  else supplier.

Definition orElse (this : Optional) (other : JsValue) : M JsValue :=
  let* present := isPresent this in
  if present then captured this else ret other.

Definition orElseGet (this : Optional) (supplier : M JsValue) : M JsValue :=
  let* present := isPresent this in
  if present then captured this else supplier.

Definition orElseThrow (this : Optional) (errorSupplier : option (M JsValue)) : M JsValue :=
  let* empty := isEmpty this in
  if empty then
    let* error :=
      match errorSupplier with
      | Some supplier => supplier
      | None => new_Error "No value present in Optional"
      end in
    throw error
  else captured this.

Definition ifPresent (this : Optional) (consumer : JsValue -> M unit) : M unit :=
  let* present := isPresent this in
  if present then
    let* value := captured this in
    consumer value
  else ret tt.

Definition ifPresentOrElse (this : Optional)
    (action : JsValue -> M unit) (emptyAction : M unit) : M unit :=
  let* present := isPresent this in
  if present then
    let* value := captured this in
    action value
  else emptyAction.

Definition equals (this other : Optional) : M bool :=
  let* p1 := isPresent this in
  let* p2 := if p1 then isPresent other else ret false in
  if p2 then
    let* value := captured this in
    let* theirs := unwrap other in
    ret (strict_eq value theirs)
  else
    let* e1 := isEmpty this in
    if e1 then isEmpty other else ret false.

(** The static factory methods ([of] is a reserved word here, hence
    [of_]). *)
Definition of_ (value : JsValue) : M Optional := createOptional value.
Definition empty : M Optional := createOptional JUndefined.
Definition ofNullable (value : JsValue) : M Optional := createOptional value.

End Optional.

(** [refAsOptional(source)] *)
Definition refAsOptional (source : Vue.Ref) : Vue.WritableComputedRef Optional :=
  Vue.computed_rw
    (let* v := Vue.get source in Optional.of_ v)
    (fun newOptional =>
       let* v := Optional.unwrap newOptional in
       Vue.set source v).

(** [optionalPath(obj, accessor)] *)
Definition optionalPath (obj : JsValue) (accessor : JsValue -> M JsValue) : M Optional :=
  let* o := Optional.of_ obj in
  Optional.map o accessor.

(** ** Promises and [async] functions *)

(** A promise is known by its identity; the event loop supplies how it
    settled when it resumes whoever awaits it. *)
Definition Promise : Type := nat.

Inductive Settlement : Type :=
  | Fulfilled (v : JsValue)
  | Rejected (reason : JsValue).

(** What the body of an [async] function has done when control returns to
    its caller: it ran to its end, or it is suspended at an [await]. *)
Inductive AsyncStep : Type :=
  | Completed (v : JsValue)
  | Suspended (p : Promise) (resume : Settlement -> M JsValue).

(** The promise an [async] function hands to its caller: already settled,
    or waiting for [p], to be settled by [continue] in the world in which
    the event loop resumes the body. *)
Inductive AsyncCall : Type :=
  | Settled (s : Settlement)
  | Waiting (p : Promise) (continue : Settlement -> World -> Settlement * World).

Definition settle (r : Outcome JsValue) : Settlement :=
  match r with
  | Ok v => Fulfilled v
  | Throw e => Rejected e
  end.

(** [await p] once [p] has settled: its value, or its reason thrown at the
    [await]. *)
Definition awaited (s : Settlement) : M JsValue :=
  match s with
  | Fulfilled v => ret v
  | Rejected e => throw e
  end.

(** Calling an [async] function never throws: what the body throws rejects
    the returned promise. *)
Definition async (body : M AsyncStep) : M AsyncCall :=
  fun w =>
    match body w with
    | (Ok (Completed v), w') => (Ok (Settled (Fulfilled v)), w')
    | (Ok (Suspended p resume), w') =>
        (Ok (Waiting p (fun s w1 => let (r, w2) := resume s w1 in (settle r, w2))), w')
    | (Throw e, w') => (Ok (Settled (Rejected e)), w')
    end.

(** [orElseGetAsync(optional, supplier)] *)
Definition orElseGetAsync (optional : Optional) (supplier : M Promise) : M AsyncCall :=
  async
    (let* present := Optional.isPresent optional in
     if present then
       let* v := Optional.get optional in
       ret (Completed v)
     else
       let* p := supplier in
       ret (Suspended p (fun s => awaited s))).

(** ** ReactiveOptional.ts *)

Record ReactiveOptional : Type := {
  optional : Vue.WritableComputedRef Optional;
  ref : Vue.Ref;
  setAsync : Promise -> M AsyncCall
}.

(** [useReactiveOptional(initialValue = undefined)]: a missing argument and
    [undefined] both select the default. *)
Definition useReactiveOptional (initialValue : option JsValue) : M ReactiveOptional :=
  let initialValue := default JUndefined initialValue in
  let* valueRef := Vue.ref initialValue in
  let optional :=
    Vue.computed_rw
      (let* v := Vue.get valueRef in Optional.of_ v)
      (fun newOptional =>
         let* v := Optional.unwrap newOptional in
         Vue.set valueRef v) in
  let setAsync := fun promise : Promise =>
    async
      (ret (Suspended promise (fun s =>
         try_catch
           (let* result := awaited s in
            Vue.set valueRef result)
           (fun error =>
              console_error [JStr "useReactiveOptional setAsync failed:"; error] ;;
              Vue.set valueRef JUndefined) ;;
         ret JUndefined))) in
  ret {| optional := optional; ref := valueRef; setAsync := setAsync |}.

(** ** The [useMaybe] composable *)

(** A [MaybeOperations] object is the closure frame [useMaybe] made for
    it. *)
Definition MaybeOperations : Type := nat.

Definition useMaybe (value : JsValue) : M MaybeOperations :=
  fun w => (Ok (length (frames w)), set_frames (frames w ++ [value]) w).

(** The optional argument of [getOrThrow]: [string | Error]. *)
Inductive ErrorArg : Type :=
  | ErrorText (text : string)
  | ErrorObject (addr : nat) (message : string).

(** [error || fallback] for an [error] that is a string or missing: the
    empty string is falsy. *)
Definition text_or (error : option ErrorArg) (fallback : string) : string :=
  match error with
  | Some (ErrorText text) => if String.eqb text "" then fallback else text
  | _ => fallback
  end.

Module Maybe.

(** [const maybeValue = computed(() => value)] *)
Definition unwrap (this : MaybeOperations) : Vue.ComputedRef JsValue :=
  Vue.computed (captured this).

Definition hasValue (this : MaybeOperations) : Vue.ComputedRef bool :=
  Vue.computed
    (let* v1 := Vue.value (unwrap this) in
     if strict_neq v1 JNull then
       let* v2 := Vue.value (unwrap this) in
       ret (strict_neq v2 JUndefined)
     else ret false).

Definition isEmpty (this : MaybeOperations) : Vue.ComputedRef bool :=
  Vue.computed
    (let* v1 := Vue.value (unwrap this) in
     if strict_eq v1 JNull then ret true
     else
       let* v2 := Vue.value (unwrap this) in
       ret (strict_eq v2 JUndefined)).

Definition map (this : MaybeOperations) (fn : JsValue -> M JsValue) : M MaybeOperations :=
  let mappedValue :=
    Vue.computed
      (let* has := Vue.value (hasValue this) in
       if has then
         let* v := Vue.value (unwrap this) in
         fn v
       else ret JUndefined) in
  let* mapped := Vue.value mappedValue in
  useMaybe mapped.

Definition flatMap (this : MaybeOperations) (fn : JsValue -> M JsValue) : M MaybeOperations :=
  let flatMappedValue :=
    Vue.computed
      (let* has := Vue.value (hasValue this) in
       if has then
         let* v := Vue.value (unwrap this) in
         fn v
       else ret JUndefined) in
  let* mapped := Vue.value flatMappedValue in
  useMaybe mapped.

Definition filter (this : MaybeOperations) (predicate : JsValue -> M bool) : M MaybeOperations :=
  let filteredValue :=
    Vue.computed
      (let* has := Vue.value (hasValue this) in
       let* keep :=
         if has then
           let* v := Vue.value (unwrap this) in
           predicate v
         else ret false in
       if keep then Vue.value (unwrap this) else ret JUndefined) in
  let* filtered := Vue.value filteredValue in
  useMaybe filtered.

Definition orElse (this : MaybeOperations) (defaultValue : JsValue) : Vue.ComputedRef JsValue :=
  Vue.computed
    (let* has := Vue.value (hasValue this) in
     if has then Vue.value (unwrap this) else ret defaultValue).

Definition orElseGet (this : MaybeOperations) (supplier : M JsValue) : Vue.ComputedRef JsValue :=
  Vue.computed
    (let* has := Vue.value (hasValue this) in
     if has then Vue.value (unwrap this) else supplier).

Definition ifPresent (this : MaybeOperations) (consumer : JsValue -> M unit) : M unit :=
  let* has := Vue.value (hasValue this) in
  if has then
    let* v := Vue.value (unwrap this) in
    consumer v
  else ret tt.

Definition getOrThrow (this : MaybeOperations) (error : option ErrorArg) : M JsValue :=
  let* has := Vue.value (hasValue this) in
  if negb has then
    match error with
    | Some (ErrorObject addr message) => throw (JError addr message)
    | _ =>
        let* e := new_Error (text_or error "Value is not present") in
        throw e
    end
  else Vue.value (unwrap this).

End Maybe.

(** [useMaybePath(obj, accessor)] *)
Definition useMaybePath (obj : JsValue) (accessor : JsValue -> M JsValue) : M MaybeOperations :=
  let* m := useMaybe obj in
  Maybe.map m accessor.

(** ** Observations *)

(** What [this.unwrap()] yields in world [w]. *)
Definition holds (this : Optional) (w : World) : JsValue :=
  default JUndefined (frames w !! this).

(** The two states of an Optional, as its own predicates report them. *)
Definition Absent (this : Optional) (w : World) : Prop :=
  result_of (Optional.isEmpty this) w = Ok true.

Definition Present (this : Optional) (w : World) : Prop :=
  result_of (Optional.isPresent this) w = Ok true.

(** An instance that did not exist in world [w]. *)
Definition fresh_in (w : World) (o : Optional) : Prop := frames w !! o = None.

(** What a cell holds once [setAsync] was resumed with settlement [s]. *)
Definition content_after (s : Settlement) : JsValue :=
  match s with
  | Fulfilled r => r
  | Rejected _ => JUndefined
  end.

(** A world in which nothing has been created yet. *)
Definition initial_world : World := mkWorld [] [] [] 0 0.

(** ** The method calls of the [Optional] interface *)

(** One call of a method on an Optional, with its arguments. *)
Inductive Operation : Type :=
  | OpMap (mapper : JsValue -> M JsValue)
  | OpFlatMap (mapper : JsValue -> M JsValue)
  | OpFilter (predicate : JsValue -> M bool)
  | OpOr (supplier : M Optional)
  | OpOrElse (other : JsValue)
  | OpOrElseGet (supplier : M JsValue)
  | OpOrElseThrow (errorSupplier : option (M JsValue))
  | OpIfPresent (consumer : JsValue -> M unit)
  | OpIfPresentOrElse (action : JsValue -> M unit) (emptyAction : M unit)
  | OpIsPresent
  | OpIsEmpty
  | OpEquals (other : Optional)
  | OpGet
  | OpUnwrap.

(** What a call gives back. *)
Inductive Answer : Type :=
  | AnInstance (o : Optional)
  | AValue (v : JsValue)
  | ABool (b : bool)
  | AVoid.

Definition invoke (this : Optional) (op : Operation) : M Answer :=
  match op with
  | OpMap mapper => let* r := Optional.map this mapper in ret (AnInstance r)
  | OpFlatMap mapper => let* r := Optional.flatMap this mapper in ret (AnInstance r)
  | OpFilter predicate => let* r := Optional.filter this predicate in ret (AnInstance r)
  | OpOr supplier => let* r := Optional.or this supplier in ret (AnInstance r)
  | OpOrElse other => let* r := Optional.orElse this other in ret (AValue r)
  | OpOrElseGet supplier => let* r := Optional.orElseGet this supplier in ret (AValue r)
  | OpOrElseThrow errorSupplier =>
      let* r := Optional.orElseThrow this errorSupplier in ret (AValue r)
  | OpIfPresent consumer => Optional.ifPresent this consumer ;; ret AVoid
  | OpIfPresentOrElse action emptyAction =>
      Optional.ifPresentOrElse this action emptyAction ;; ret AVoid
  | OpIsPresent => let* r := Optional.isPresent this in ret (ABool r)
  | OpIsEmpty => let* r := Optional.isEmpty this in ret (ABool r)
  | OpEquals other => let* r := Optional.equals this other in ret (ABool r)
  | OpGet => let* r := Optional.get this in ret (AValue r)
  | OpUnwrap => let* r := Optional.unwrap this in ret (AValue r)
  end.

(** A property [P] of computations holds of every user function the call
    passes in, at every argument. *)
Definition callbacks (P : forall A, M A -> Prop) (op : Operation) : Prop :=
  match op with
  | OpMap mapper | OpFlatMap mapper => forall v, P _ (mapper v)
  | OpFilter predicate => forall v, P _ (predicate v)
  | OpOr supplier => P _ supplier
  | OpOrElseGet supplier => P _ supplier
  | OpOrElseThrow (Some supplier) => P _ supplier
  | OpIfPresent consumer => forall v, P _ (consumer v)
  | OpIfPresentOrElse action emptyAction => (forall v, P _ (action v)) /\ P _ emptyAction
  | _ => True
  end.

(** The two extraction methods that are allowed to raise. *)
Definition may_raise (op : Operation) : bool :=
  match op with
  | OpGet | OpOrElseThrow _ => true
  | _ => false
  end.

(** [or] on a receiver that holds an absence marker: the one call that
    hands back an instance it did not create. *)
Definition defers_to_supplier (this : Optional) (op : Operation) (w : World) : Prop :=
  match op with
  | OpOr _ => Absent this w
  | _ => False
  end.

(** ** Basic facts about the monad and the stores *)

Lemma is_marker_spec (v : JsValue) : is_marker v = true <-> absence_marker v.
Proof.
  unfold absence_marker; destruct v; cbn; split; intros H;
    try discriminate; try (destruct H; discriminate); auto.
Qed.

Lemma is_marker_false (v : JsValue) : is_marker v = false <-> ~ absence_marker v.
Proof.
  rewrite <- is_marker_spec. destruct (is_marker v); split; intros; congruence.
Qed.

Lemma strict_eq_markers (v : JsValue) :
  strict_eq v JNull || strict_eq v JUndefined = is_marker v.
Proof. destruct v; reflexivity. Qed.

Lemma strict_neq_markers (v : JsValue) :
  strict_neq v JNull && strict_neq v JUndefined = negb (is_marker v).
Proof. destruct v; reflexivity. Qed.

Lemma bind_ok {A B} (m : M A) (k : A -> M B) (w w' : World) (a : A) :
  m w = (Ok a, w') -> bind m k w = k a w'.
Proof. intros E. unfold bind. now rewrite E. Qed.

Lemma bind_throw {A B} (m : M A) (k : A -> M B) (w w' : World) (e : JsValue) :
  m w = (Throw e, w') -> bind m k w = (Throw e, w').
Proof. intros E. unfold bind. now rewrite E. Qed.

Lemma run_captured (this : Optional) (w : World) :
  captured this w = (Ok (holds this w), w).
Proof. reflexivity. Qed.

Lemma run_unwrap (this : Optional) (w : World) :
  Optional.unwrap this w = (Ok (holds this w), w).
Proof. reflexivity. Qed.

Lemma run_isEmpty (this : Optional) (w : World) :
  Optional.isEmpty this w = (Ok (is_marker (holds this w)), w).
Proof.
  unfold Optional.isEmpty, bind, ret. rewrite run_captured.
  now rewrite strict_eq_markers.
Qed.

Lemma run_isPresent (this : Optional) (w : World) :
  Optional.isPresent this w = (Ok (negb (is_marker (holds this w))), w).
Proof.
  unfold Optional.isPresent, bind, ret. rewrite run_captured.
  now rewrite strict_neq_markers.
Qed.

Lemma Absent_iff (this : Optional) (w : World) :
  Absent this w <-> absence_marker (holds this w).
Proof.
  unfold Absent, result_of. rewrite run_isEmpty, <- is_marker_spec. cbn.
  split; congruence.
Qed.

Lemma Present_iff (this : Optional) (w : World) :
  Present this w <-> ~ absence_marker (holds this w).
Proof.
  unfold Present, result_of. rewrite run_isPresent, <- is_marker_false. cbn.
  destruct (is_marker (holds this w)); cbn; split; congruence.
Qed.

Lemma Present_not_Absent (this : Optional) (w : World) :
  Present this w <-> ~ Absent this w.
Proof. now rewrite Present_iff, Absent_iff. Qed.

Lemma Absent_or_Present (this : Optional) (w : World) :
  {Absent this w} + {Present this w}.
Proof.
  destruct (is_marker (holds this w)) eqn:E.
  - left. now apply Absent_iff, is_marker_spec.
  - right. now apply Present_iff, is_marker_false.
Qed.

(** The frame [createOptional] makes holds the value it was given, and every
    older frame is as it was. *)
Lemma holds_created (value : JsValue) (w : World) :
  holds (length (frames w)) (set_frames (frames w ++ [value]) w) = value.
Proof.
  unfold holds; cbn. now rewrite lookup_app_r, Nat.sub_diag by lia.
Qed.

Lemma created_holds (value : JsValue) (w w' : World) (r : Optional) :
  createOptional value w = (Ok r, w') -> holds r w' = value.
Proof. intros E. injection E as <- <-. apply holds_created. Qed.

Lemma holds_older (value : JsValue) (w : World) (o : Optional) :
  (o < length (frames w))%nat ->
  holds o (set_frames (frames w ++ [value]) w) = holds o w.
Proof.
  intros H. unfold holds; cbn. now rewrite lookup_app_l.
Qed.

Lemma created_is_fresh (w : World) : fresh_in w (length (frames w)).
Proof. apply lookup_ge_None_2. lia. Qed.

(** Unfolding of the operations at the value the receiver holds. *)
Lemma run_map (this : Optional) (mapper : JsValue -> M JsValue) (w : World) :
  Optional.map this mapper w =
    if is_marker (holds this w) then createOptional JUndefined w
    else (let* mapped := mapper (holds this w) in createOptional mapped) w.
Proof.
  unfold Optional.map, bind at 1. rewrite run_isEmpty.
  destruct (is_marker (holds this w)); reflexivity.
Qed.

Lemma run_filter (this : Optional) (predicate : JsValue -> M bool) (w : World) :
  Optional.filter this predicate w =
    if is_marker (holds this w) then createOptional (holds this w) w
    else (let* keep := predicate (holds this w) in
          if keep then createOptional (holds this w)
          else createOptional JUndefined) w.
Proof.
  unfold Optional.filter, bind at 1. rewrite run_isEmpty.
  destruct (is_marker (holds this w)); reflexivity.
Qed.

Lemma run_or (this : Optional) (supplier : M Optional) (w : World) :
  Optional.or this supplier w =
    if is_marker (holds this w) then supplier w
    else createOptional (holds this w) w.
Proof.
  unfold Optional.or, bind at 1. rewrite run_isPresent.
  destruct (is_marker (holds this w)); reflexivity.
Qed.

Lemma run_get (this : Optional) (w : World) :
  Optional.get this w =
    if is_marker (holds this w)
    then (Throw (JError (next_addr w) "No value present in Optional"),
          set_next_addr (S (next_addr w)) w)
    else (Ok (holds this w), w).
Proof.
  unfold Optional.get, bind at 1. rewrite run_isEmpty.
  destruct (is_marker (holds this w)); reflexivity.
Qed.

Lemma run_orElseThrow (this : Optional) (errorSupplier : option (M JsValue)) (w : World) :
  Optional.orElseThrow this errorSupplier w =
    if is_marker (holds this w)
    then (let* error :=
            match errorSupplier with
            | Some supplier => supplier
            | None => new_Error "No value present in Optional"
            end in
          throw error) w
    else (Ok (holds this w), w).
Proof.
  unfold Optional.orElseThrow, bind at 1. rewrite run_isEmpty.
  destruct (is_marker (holds this w)); reflexivity.
Qed.

(** ** Proof rules for the two properties of computations *)

Create HintDb stable discriminated.
Create HintDb calm discriminated.

Section Rules.

Context {A B : Type}.

Lemma frame_stable_ret (a : A) : frame_stable (ret a).
Proof. intros w. reflexivity. Qed.

Lemma frame_stable_throw (e : JsValue) : frame_stable (@throw A e).
Proof. intros w. reflexivity. Qed.

Lemma frame_stable_bind (m : M A) (k : A -> M B) :
  frame_stable m -> (forall a, frame_stable (k a)) -> frame_stable (bind m k).
Proof.
  intros Hm Hk w. specialize (Hm w). unfold world_after, bind in *.
  destruct (m w) as [[a | e] w1]; cbn in *; [| exact Hm].
  etransitivity; [exact Hm | apply (Hk a w1)].
Qed.

Lemma frame_stable_if (b : bool) (m1 m2 : M A) :
  frame_stable m1 -> frame_stable m2 -> frame_stable (if b then m1 else m2).
Proof. now destruct b. Qed.

Lemma no_throw_ret (a : A) : no_throw (ret a).
Proof. intros w. now exists a. Qed.

Lemma no_throw_bind (m : M A) (k : A -> M B) :
  no_throw m -> (forall a, no_throw (k a)) -> no_throw (bind m k).
Proof.
  intros Hm Hk w. destruct (Hm w) as [a Ha].
  unfold returns, result_of, bind in *.
  destruct (m w) as [[a' | e] w1]; cbn in Ha; [| discriminate].
  apply (Hk a' w1).
Qed.

Lemma no_throw_if (b : bool) (m1 m2 : M A) :
  no_throw m1 -> no_throw m2 -> no_throw (if b then m1 else m2).
Proof. now destruct b. Qed.

End Rules.

Lemma frame_stable_captured (this : Optional) : frame_stable (captured this).
Proof. intros w. reflexivity. Qed.

Lemma frame_stable_createOptional (value : JsValue) : frame_stable (createOptional value).
Proof. intros w. cbn. now apply prefix_app_r. Qed.

Lemma frame_stable_new_Error (message : string) : frame_stable (new_Error message).
Proof. intros w. reflexivity. Qed.

Lemma no_throw_captured (this : Optional) : no_throw (captured this).
Proof. intros w. now eexists. Qed.

Lemma no_throw_createOptional (value : JsValue) : no_throw (createOptional value).
Proof. intros w. now eexists. Qed.

#[local] Hint Resolve frame_stable_ret frame_stable_throw frame_stable_bind
  frame_stable_if frame_stable_captured frame_stable_createOptional
  frame_stable_new_Error : stable.
#[local] Hint Resolve no_throw_ret no_throw_bind no_throw_if no_throw_captured
  no_throw_createOptional : calm.

Ltac step_rule db :=
  repeat first
    [ progress intros
    | match goal with
      | |- frame_stable (if ?b then _ else _) => destruct b
      | |- no_throw (if ?b then _ else _) => destruct b
      | |- frame_stable (match ?o with Some _ => _ | None => _ end) => destruct o
      | H : _ /\ _ |- _ => destruct H
      end
    | solve [eauto with db]
    | apply frame_stable_bind
    | apply no_throw_bind ].

Lemma frame_stable_isEmpty (this : Optional) : frame_stable (Optional.isEmpty this).
Proof. unfold Optional.isEmpty. step_rule stable. Qed.

Lemma frame_stable_isPresent (this : Optional) : frame_stable (Optional.isPresent this).
Proof. unfold Optional.isPresent. step_rule stable. Qed.

Lemma no_throw_isEmpty (this : Optional) : no_throw (Optional.isEmpty this).
Proof. unfold Optional.isEmpty. step_rule calm. Qed.

Lemma no_throw_isPresent (this : Optional) : no_throw (Optional.isPresent this).
Proof. unfold Optional.isPresent. step_rule calm. Qed.

#[local] Hint Resolve frame_stable_isEmpty frame_stable_isPresent : stable.
#[local] Hint Resolve no_throw_isEmpty no_throw_isPresent : calm.

(** Every call keeps the existing frames, as long as the user functions it
    runs do. *)
Lemma invoke_frame_stable (this : Optional) (op : Operation) :
  callbacks (@frame_stable) op -> frame_stable (invoke this op).
Proof.
  destruct op; cbn [callbacks invoke]; intros H;
    unfold Optional.map, Optional.flatMap, Optional.filter, Optional.or,
      Optional.orElse, Optional.orElseGet, Optional.orElseThrow,
      Optional.ifPresent, Optional.ifPresentOrElse, Optional.equals,
      Optional.get, Optional.unwrap;
    step_rule stable.
Qed.

(** No call other than [get] and [orElseThrow] throws, as long as the user
    functions it runs do not. *)
Lemma invoke_no_throw (this : Optional) (op : Operation) :
  may_raise op = false -> callbacks (@no_throw) op -> no_throw (invoke this op).
Proof.
  destruct op; cbn [callbacks invoke may_raise]; intros Hraise H;
    try discriminate;
    unfold Optional.map, Optional.flatMap, Optional.filter, Optional.or,
      Optional.orElse, Optional.orElseGet,
      Optional.ifPresent, Optional.ifPresentOrElse, Optional.equals,
      Optional.unwrap;
    step_rule calm.
Qed.

(** ** The construction and the presence predicates *)

Lemma run_of_then {A} (value : JsValue) (k : Optional -> M A) (w : World) :
  (let* o := Optional.of_ value in k o) w =
    k (length (frames w)) (set_frames (frames w ++ [value]) w).
Proof. reflexivity. Qed.

(** C4.  For a raw value [v] that is neither [null] nor [undefined],
    [Optional.of(v).isPresent()] is true and [Optional.of(v).unwrap()] is
    [v], also for the falsy values [0], the empty string and [false]; for
    an absence marker, [Optional.of(m).isEmpty()] is true.  Presence is
    [v] not being one of the two markers, whatever its truthiness. *)
Theorem of_presence_is_marker_identity (v : JsValue) (w : World) :
  (~ absence_marker v ->
     result_of (let* o := Optional.of_ v in Optional.isPresent o) w = Ok true /\
     result_of (let* o := Optional.of_ v in Optional.unwrap o) w = Ok v) /\
  (absence_marker v ->
     result_of (let* o := Optional.of_ v in Optional.isEmpty o) w = Ok true) /\
  result_of (let* o := Optional.of_ v in Optional.isPresent o) w
    = Ok (negb (is_marker v)) /\
  (v = JNum 0 \/ v = JStr "" \/ v = JBool false ->
     truthy v = false /\
     result_of (let* o := Optional.of_ v in Optional.isPresent o) w = Ok true /\
     result_of (let* o := Optional.of_ v in Optional.unwrap o) w = Ok v).
Proof.
  unfold result_of.
  rewrite !run_of_then, run_isPresent, run_isEmpty, run_unwrap, holds_created.
  cbn [fst]. split; [| split; [| split]].
  - intros H. apply is_marker_false in H. now rewrite H.
  - intros H. apply is_marker_spec in H. now rewrite H.
  - reflexivity.
  - intros [-> | [-> | ->]]; repeat split.
Qed.

Lemma of_presence_is_marker_identity_witness :
  result_of (let* o := Optional.of_ (JNum 0) in Optional.isPresent o) initial_world = Ok true /\
  result_of (let* o := Optional.of_ (JNum 0) in Optional.unwrap o) initial_world = Ok (JNum 0) /\
  result_of (let* o := Optional.of_ JNull in Optional.isEmpty o) initial_world = Ok true.
Proof.
  destruct (of_presence_is_marker_identity (JNum 0) initial_world) as [Hp _].
  destruct (of_presence_is_marker_identity JNull initial_world) as [_ [He _]].
  split; [| split].
  - apply Hp. intros [H | H]; discriminate H.
  - apply Hp. intros [H | H]; discriminate H.
  - apply He. left. reflexivity.
Defined.

(** ** [map] and [flatMap] *)

(** C1.  On an Absent Optional, [map(fn)] is the creation of an Optional of
    [undefined], whatever [fn] is: [fn] is not invoked (a call-counting
    probe around it stays where it was) and the result is Absent.  On
    Present(v) it is [Optional.of(fn(v))]; so the result is Absent exactly
    when [fn] returns an absence marker. *)
Theorem map_absent_or_of_mapped
    (this : Optional) (fn : JsValue -> M JsValue) (w : World) :
  (Absent this w ->
     Optional.map this fn w = Optional.empty w /\
     calls (world_after (Optional.map this (probe fn)) w) = calls w /\
     (forall r w', Optional.map this fn w = (Ok r, w') -> Absent r w')) /\
  (Present this w ->
     Optional.map this fn w =
       (let* mapped := fn (holds this w) in Optional.of_ mapped) w /\
     (forall mapped w1, fn (holds this w) w = (Ok mapped, w1) ->
        exists r w', Optional.map this fn w = (Ok r, w') /\
          holds r w' = mapped /\
          (Absent r w' <-> absence_marker mapped))).
Proof.
  split.
  - intros Habs. apply Absent_iff, is_marker_spec in Habs.
    unfold world_after. rewrite !run_map, Habs. repeat split.
    intros r w' E. injection E as <- <-.
    apply Absent_iff. rewrite holds_created. now right.
  - intros Hpres. apply Present_iff, is_marker_false in Hpres.
    rewrite run_map, Hpres. split; [reflexivity |].
    intros mapped w1 E. unfold bind. rewrite E. do 2 eexists.
    split; [reflexivity |]. rewrite Absent_iff, holds_created. tauto.
Qed.

Lemma map_absent_or_of_mapped_witness :
  (let* o := Optional.of_ JNull in
   Optional.map o (fun _ => ret (JNum 1))) initial_world
  = (let* o := Optional.of_ JNull in Optional.empty) initial_world
  /\
  (let* o := Optional.of_ (JNum 5) in
   Optional.map o (fun _ => ret JNull)) initial_world
  = (let* o := Optional.of_ (JNum 5) in
     let* mapped := ret JNull in Optional.of_ mapped) initial_world.
Proof.
  split.
  - rewrite !run_of_then.
    apply (map_absent_or_of_mapped _ (fun _ => ret (JNum 1))). reflexivity.
  - rewrite !run_of_then.
    apply (map_absent_or_of_mapped _ (fun _ => ret JNull)). reflexivity.
Defined.

(** C2.  From the same state, [flatMap(fn)] and [map(fn)] do the same: the
    same outcome (the same instance, or the same exception), the same
    effects; so the results have the same presence state and unwrap to the
    same value. *)
Theorem flatMap_is_map (this : Optional) (fn : JsValue -> M JsValue) (w : World) :
  Optional.flatMap this fn w = Optional.map this fn w /\
  result_of (let* r := Optional.flatMap this fn in Optional.isPresent r) w
    = result_of (let* r := Optional.map this fn in Optional.isPresent r) w /\
  result_of (let* r := Optional.flatMap this fn in Optional.unwrap r) w
    = result_of (let* r := Optional.map this fn in Optional.unwrap r) w.
Proof.
  assert (E : Optional.flatMap this fn w = Optional.map this fn w) by reflexivity.
  unfold result_of, bind. now rewrite E.
Qed.

(** ** Which absence marker a result carries *)

(** On a Present source the marker is the function's: the result of
    [Optional.of(5).map(() => null)] is Absent and unwraps to [null].  So
    what [map] normalises is the marker of an Absent source, not every
    Absent result. *)
Lemma absent_map_result_may_carry_null :
  ~ (forall (this : Optional) (fn : JsValue -> M JsValue) (w : World) r w',
       Optional.map this fn w = (Ok r, w') -> Absent r w' ->
       holds r w' = JUndefined).
Proof.
  intros H.
  specialize (H 0%nat (fun _ => ret JNull) (mkWorld [JNum 5] [] [] 0 0)
                1%nat (mkWorld [JNum 5; JNull] [] [] 0 0) eq_refl eq_refl).
  discriminate H.
Qed.

(** C10.  Absence-marker normalization is asymmetric.  For every function,
    [Optional.of(null).map(f).unwrap()] is [undefined]: the result of [map]
    or [flatMap] on a source that holds an absence marker carries
    [undefined], whichever marker the source held.  For every predicate,
    [Optional.of(null).filter(p).unwrap()] is [null]: [filter] on an Absent
    Optional gives an Optional of the marker the source held.  Both hold
    for [Optional.of(m)] and for any Optional that holds the marker [m]. *)
Theorem marker_of_absent_results
    (m : JsValue) (fn : JsValue -> M JsValue) (predicate : JsValue -> M bool)
    (w : World) :
  absence_marker m ->
  result_of (let* o := Optional.of_ m in
             let* r := Optional.map o fn in Optional.unwrap r) w = Ok JUndefined /\
  result_of (let* o := Optional.of_ m in
             let* r := Optional.flatMap o fn in Optional.unwrap r) w = Ok JUndefined /\
  result_of (let* o := Optional.of_ m in
             let* r := Optional.filter o predicate in Optional.unwrap r) w = Ok m /\
  (forall (this : Optional) (w0 : World), holds this w0 = m ->
     (forall r w', Optional.map this fn w0 = (Ok r, w') ->
        holds r w' = JUndefined /\ calls w' = calls w0) /\
     (forall r w', Optional.flatMap this fn w0 = (Ok r, w') ->
        holds r w' = JUndefined /\ calls w' = calls w0) /\
     (forall r w', Optional.filter this predicate w0 = (Ok r, w') ->
        holds r w' = m /\ calls w' = calls w0)).
Proof.
  intros Hm. pose proof (proj2 (is_marker_spec m) Hm) as Em.
  set (o := length (frames w)).
  set (w0 := set_frames (frames w ++ [m]) w).
  assert (Ho : holds o w0 = m) by apply holds_created.
  assert (Emap : Optional.map o fn w0 = createOptional JUndefined w0)
    by (now rewrite run_map, Ho, Em).
  assert (Efil : Optional.filter o predicate w0 = createOptional m w0)
    by (now rewrite run_filter, Ho, Em).
  unfold result_of. rewrite !run_of_then. fold o w0. split; [| split; [| split]].
  - erewrite bind_ok by exact Emap. now rewrite run_unwrap, holds_created.
  - erewrite bind_ok by exact Emap. now rewrite run_unwrap, holds_created.
  - erewrite bind_ok by exact Efil. now rewrite run_unwrap, holds_created.
  - intros this w1 Hthis.
    assert (Hcalls : forall v r w',
              createOptional v w1 = (Ok r, w') -> calls w' = calls w1)
      by (intros v r w' E; now injection E as <- <-).
    split; [| split]; intros r w' E.
    + rewrite run_map, Hthis, Em in E.
      split; [exact (created_holds _ _ _ _ E) | exact (Hcalls _ _ _ E)].
    + change (Optional.flatMap this fn) with (Optional.map this fn) in E.
      rewrite run_map, Hthis, Em in E.
      split; [exact (created_holds _ _ _ _ E) | exact (Hcalls _ _ _ E)].
    + rewrite run_filter, Hthis, Em in E.
      split; [exact (created_holds _ _ _ _ E) | exact (Hcalls _ _ _ E)].
Qed.

Lemma marker_of_absent_results_witness :
  result_of (let* o := Optional.of_ JNull in
             let* r := Optional.map o (fun _ => ret (JNum 1)) in
             Optional.unwrap r) initial_world = Ok JUndefined /\
  result_of (let* o := Optional.of_ JNull in
             let* r := Optional.filter o (fun _ => ret true) in
             Optional.unwrap r) initial_world = Ok JNull.
Proof.
  destruct (marker_of_absent_results JNull (fun _ => ret (JNum 1))
              (fun _ => ret true) initial_world (or_introl eq_refl))
    as [Hmap [_ [Hfilter _]]].
  split; [exact Hmap | exact Hfilter].
Defined.

(** ** Which operations raise *)

(** C5, as stated, fails on the message: the error [get()] raises on an
    Absent Optional reads "No value present in Optional", not
    "no value present". *)
Lemma get_default_message_differs :
  ~ (forall (this : Optional) (w : World) addr message,
       result_of (Optional.get this) w = Throw (JError addr message) ->
       message = "no value present").
Proof.
  intros H.
  specialize (H 0%nat (mkWorld [JUndefined] [] [] 0 0) 0%nat
                "No value present in Optional" eq_refl).
  discriminate H.
Qed.

(** C5, amended.  [get()] and [orElseThrow()] raise exactly when the
    Optional is Absent: a new Error with the message
    "No value present in Optional" when no error factory is supplied, the
    error the factory produces when one is; on a Present Optional both
    return the held value.  No other operation raises, as long as the
    user-supplied functions do not. *)
Theorem only_get_and_orElseThrow_raise (this : Optional) (w : World) :
  (throws (Optional.get this) w <-> Absent this w) /\
  (forall errorSupplier,
     throws (Optional.orElseThrow this errorSupplier) w <-> Absent this w) /\
  (Absent this w ->
     Optional.get this w
       = (Throw (JError (next_addr w) "No value present in Optional"),
          set_next_addr (S (next_addr w)) w) /\
     Optional.orElseThrow this None w
       = (Throw (JError (next_addr w) "No value present in Optional"),
          set_next_addr (S (next_addr w)) w) /\
     (forall factory error w', factory w = (Ok error, w') ->
        Optional.orElseThrow this (Some factory) w = (Throw error, w'))) /\
  (Present this w ->
     Optional.get this w = (Ok (holds this w), w) /\
     forall errorSupplier,
       Optional.orElseThrow this errorSupplier w = (Ok (holds this w), w)) /\
  (forall op, may_raise op = false -> callbacks (@no_throw) op ->
     returns (invoke this op) w).
Proof.
  assert (HA : Absent this w <-> is_marker (holds this w) = true)
    by (rewrite Absent_iff; symmetry; apply is_marker_spec).
  assert (HP : Present this w <-> is_marker (holds this w) = false)
    by (rewrite Present_iff; symmetry; apply is_marker_false).
  unfold throws, result_of. rewrite run_get.
  split; [| split; [| split; [| split]]].
  - rewrite HA. destruct (is_marker (holds this w)); cbn; split; intros H.
    + reflexivity.
    + now eexists.
    + destruct H as [e H]. discriminate H.
    + discriminate H.
  - intros errorSupplier. rewrite HA, run_orElseThrow.
    destruct (is_marker (holds this w)); cbn; split; intros H.
    + reflexivity.
    + unfold bind, throw.
      destruct (match errorSupplier with
                | Some supplier => supplier
                | None => new_Error "No value present in Optional"
                end w) as [[error | e] w'];
        now eexists.
    + destruct H as [e H]. discriminate H.
    + discriminate H.
  - intros E. apply HA in E. rewrite !run_orElseThrow, E. repeat split.
    intros factory error w' Hf. rewrite run_orElseThrow, E.
    now erewrite bind_ok by exact Hf.
  - intros E. apply HP in E. split; [now rewrite E |].
    intros errorSupplier. now rewrite run_orElseThrow, E.
  - intros op Hop Hcb. now apply invoke_no_throw.
Qed.

Lemma only_get_and_orElseThrow_raise_witness :
  Optional.get 0%nat (mkWorld [JNull] [] [] 0 0)
    = (Throw (JError 0 "No value present in Optional"),
       mkWorld [JNull] [] [] 1 0) /\
  Optional.get 0%nat (mkWorld [JNum 0] [] [] 0 0)
    = (Ok (JNum 0), mkWorld [JNum 0] [] [] 0 0) /\
  returns (invoke 0%nat (OpMap (fun v => ret v))) (mkWorld [JNum 0] [] [] 0 0).
Proof.
  destruct (only_get_and_orElseThrow_raise 0%nat (mkWorld [JNull] [] [] 0 0))
    as [_ [_ [Habs _]]].
  destruct (only_get_and_orElseThrow_raise 0%nat (mkWorld [JNum 0] [] [] 0 0))
    as [_ [_ [_ [Hpres Hrest]]]].
  split; [| split].
  - exact (proj1 (Habs eq_refl)).
  - exact (proj1 (Hpres eq_refl)).
  - apply Hrest; [reflexivity |]. intros v w. now exists v.
Defined.

(** ** Structural immutability *)

(** C9, as stated, fails on "every operation returns a fresh instance":
    [or] on an Absent receiver returns whatever the supplier returns, which
    can be an instance that already existed, the receiver included. *)
Lemma or_on_absent_returns_existing_instance :
  ~ (forall (this : Optional) (supplier : M Optional) (w : World) r,
       frame_stable supplier ->
       result_of (Optional.or this supplier) w = Ok r -> fresh_in w r).
Proof.
  intros H.
  specialize (H 0%nat (ret 0%nat) (mkWorld [JNull] [] [] 0 0) 0%nat
                (frame_stable_ret _) eq_refl).
  discriminate H.
Qed.

(** C9, amended.  For an Optional constructed from a raw value [x], any
    call of any operation leaves it as it was: afterwards its frame still
    holds [x], [unwrap()] still yields [x] and [isPresent()] answers as
    before; no operation writes to the receiver.  An operation that
    returns an Optional returns an instance that did not exist before the
    call (so not the receiver), except [or] on an Absent receiver, which
    returns what the supplier returns. *)
Theorem operations_leave_receiver_unchanged
    (this : Optional) (x : JsValue) (op : Operation) (w : World) :
  frames w !! this = Some x ->
  callbacks (@frame_stable) op ->
  frames (world_after (invoke this op) w) !! this = Some x /\
  result_of (Optional.unwrap this) (world_after (invoke this op) w) = Ok x /\
  result_of (Optional.isPresent this) (world_after (invoke this op) w)
    = result_of (Optional.isPresent this) w /\
  (forall r, result_of (invoke this op) w = Ok (AnInstance r) ->
     ~ defers_to_supplier this op w ->
     fresh_in w r /\ r <> this).
Proof.
  intros Hthis Hcb.
  pose proof (invoke_frame_stable this op Hcb w) as Hpre.
  assert (Hkept : frames (world_after (invoke this op) w) !! this = Some x)
    by (eapply prefix_lookup_Some; eassumption).
  assert (Hholds : holds this (world_after (invoke this op) w) = holds this w)
    by (unfold holds; now rewrite Hkept, Hthis).
  split; [exact Hkept |]. split; [| split].
  - unfold result_of. rewrite run_unwrap. cbn. unfold holds. now rewrite Hkept.
  - unfold result_of. now rewrite !run_isPresent, Hholds.
  - intros r Hr Hnot.
    assert (Hfresh : fresh_in w r).
    { clear Hpre Hkept Hholds. unfold result_of in Hr.
      destruct op; cbn [invoke callbacks defers_to_supplier] in *;
        unfold bind at 1 in Hr.
      - rewrite run_map in Hr. destruct (is_marker (holds this w)).
        + injection Hr as <-. apply created_is_fresh.
        + unfold bind in Hr. pose proof (Hcb (holds this w) w) as Hm.
          unfold world_after in Hm.
          destruct (mapper (holds this w) w) as [[mapped | e] w1];
            cbn in Hr, Hm; [| discriminate].
          injection Hr as <-. apply lookup_ge_None_2.
          apply prefix_length in Hm. lia.
      - change (Optional.flatMap this mapper) with (Optional.map this mapper) in Hr.
        rewrite run_map in Hr. destruct (is_marker (holds this w)).
        + injection Hr as <-. apply created_is_fresh.
        + unfold bind in Hr. pose proof (Hcb (holds this w) w) as Hm.
          unfold world_after in Hm.
          destruct (mapper (holds this w) w) as [[mapped | e] w1];
            cbn in Hr, Hm; [| discriminate].
          injection Hr as <-. apply lookup_ge_None_2.
          apply prefix_length in Hm. lia.
      - rewrite run_filter in Hr. destruct (is_marker (holds this w)).
        + injection Hr as <-. apply created_is_fresh.
        + unfold bind in Hr. pose proof (Hcb (holds this w) w) as Hm.
          unfold world_after in Hm.
          destruct (predicate (holds this w) w) as [[[] | e] w1];
            cbn in Hr, Hm; try discriminate;
            injection Hr as <-; apply lookup_ge_None_2;
            apply prefix_length in Hm; lia.
      - rewrite run_or in Hr.
        destruct (is_marker (holds this w)) eqn:E.
        + exfalso. apply Hnot. now apply Absent_iff, is_marker_spec.
        + injection Hr as <-. apply created_is_fresh.
      - destruct (Optional.orElse this other w) as [[] ?]; discriminate.
      - destruct (Optional.orElseGet this supplier w) as [[] ?]; discriminate.
      - destruct (Optional.orElseThrow this errorSupplier w) as [[] ?]; discriminate.
      - destruct (Optional.ifPresent this consumer w) as [[] ?]; discriminate.
      - destruct (Optional.ifPresentOrElse this action emptyAction w) as [[] ?];
          discriminate.
      - destruct (Optional.isPresent this w) as [[] ?]; discriminate.
      - destruct (Optional.isEmpty this w) as [[] ?]; discriminate.
      - destruct (Optional.equals this other w) as [[] ?]; discriminate.
      - destruct (Optional.get this w) as [[] ?]; discriminate.
      - destruct (Optional.unwrap this w) as [[] ?]; discriminate. }
    split; [exact Hfresh |].
    intros ->. unfold fresh_in in Hfresh. congruence.
Qed.

Lemma operations_leave_receiver_unchanged_witness :
  frames (world_after
            (invoke 0%nat (OpMap (fun v => match v with
                                           | JNum n => ret (JNum (n * 2))
                                           | _ => ret JNaN
                                           end)))
            (mkWorld [JNum 5] [] [] 0 0)) !! 0%nat = Some (JNum 5).
Proof.
  apply (operations_leave_receiver_unchanged 0%nat (JNum 5)
           (OpMap (fun v => match v with
                            | JNum n => ret (JNum (n * 2))
                            | _ => ret JNaN
                            end))
           (mkWorld [JNum 5] [] [] 0 0)).
  - reflexivity.
  - intros v w. destruct v; reflexivity.
Defined.

(** The test "should preserve immutability": [opt1 = Optional.of(5)],
    [opt2 = opt1.map(x => x * 2)]; then [opt1] unwraps to 5, [opt2] to 10. *)
Example map_preserves_immutability :
  result_of
    (let* opt1 := Optional.of_ (JNum 5) in
     let* opt2 := Optional.map opt1 (fun v => match v with
                                              | JNum n => ret (JNum (n * 2))
                                              | _ => ret JNaN
                                              end) in
     let* v1 := Optional.unwrap opt1 in
     let* v2 := Optional.unwrap opt2 in
     ret (v1, v2)) initial_world
  = Ok (JNum 5, JNum 10).
Proof. reflexivity. Qed.

(** ** The reactive adapters *)

Lemma run_get_after_set (source : Vue.Ref) (v : JsValue) (w : World) :
  (source < length (cells w))%nat ->
  Vue.get source (set_cells (<[source := v]> (cells w)) w)
    = (Ok v, set_cells (<[source := v]> (cells w)) w).
Proof.
  intros H. unfold Vue.get. cbn [cells set_cells].
  now rewrite list_lookup_insert_eq.
Qed.

(** Writing an Optional to the view of a cell stores what it holds. *)
Lemma run_view_write (source : Vue.Ref) (o : Optional) (w : World) :
  Vue.write (refAsOptional source) o w
    = (Ok tt, set_cells (<[source := holds o w]> (cells w)) w).
Proof. reflexivity. Qed.

(** Reading the view wraps the content of the cell in a new Optional. *)
Lemma run_view_read (source : Vue.Ref) (w : World) :
  Vue.read (refAsOptional source) w
    = createOptional (default JUndefined (cells w !! source)) w.
Proof. reflexivity. Qed.

(** The world after [x] was wrapped, written to the view of [source] and
    the view was read: two new frames that hold [x], and [x] in the cell. *)
Lemma write_then_read {A} (source : Vue.Ref) (x : JsValue) (w : World)
    (k : Optional -> M A) :
  (source < length (cells w))%nat ->
  (let* o := Optional.of_ x in
   Vue.write (refAsOptional source) o ;;
   let* o' := Vue.read (refAsOptional source) in
   k o') w
  = k (S (length (frames w)))
      (mkWorld (frames w ++ [x; x]) (<[source := x]> (cells w))
         (console w) (next_addr w) (calls w)).
Proof.
  intros H. rewrite run_of_then.
  erewrite bind_ok by apply run_view_write.
  rewrite holds_created.
  erewrite bind_ok.
  2:{ rewrite run_view_read. cbn [cells set_cells set_frames].
      rewrite list_lookup_insert_eq by exact H. reflexivity. }
  unfold set_frames, set_cells. cbn.
  rewrite length_app, <- app_assoc. cbn.
  now replace (length (frames w) + 1)%nat with (S (length (frames w))) by lia.
Qed.

Lemma holds_second_new (x : JsValue) (fs : list JsValue) (cs : list JsValue)
    (l : list (list JsValue)) (a n : nat) :
  holds (S (length fs)) (mkWorld (fs ++ [x; x]) cs l a n) = x.
Proof.
  unfold holds. cbn. rewrite lookup_app_r by lia.
  now replace (S (length fs) - length fs)%nat with 1%nat by lia.
Qed.


Lemma container_created (initialValue : option JsValue) (w w' : World)
    (c : ReactiveOptional) :
  useReactiveOptional initialValue w = (Ok c, w') ->
  optional c = refAsOptional (ref c) /\
  ref c = length (cells w) /\
  w' = set_cells (cells w ++ [default JUndefined initialValue]) w.
Proof. intros E. injection E as <- <-. repeat split. Qed.

Lemma container_cell_live (initialValue : option JsValue) (w w' : World)
    (c : ReactiveOptional) :
  useReactiveOptional initialValue w = (Ok c, w') ->
  (ref c < length (cells w'))%nat.
Proof.
  intros E. destruct (container_created _ _ _ _ E) as (_ & -> & ->).
  cbn. rewrite length_app. cbn. lia.
Qed.






(** ** [setAsync] *)

(** What [setAsync] does once the promise has settled, in the world [w1] in
    which it is resumed. *)
Lemma run_setAsync (initialValue : option JsValue) (w0 w0' : World)
    (c : ReactiveOptional) (promise : Promise) (w : World) :
  useReactiveOptional initialValue w0 = (Ok c, w0') ->
  exists continue,
    setAsync c promise w = (Ok (Waiting promise continue), w) /\
    (forall r w1,
       continue (Fulfilled r) w1
         = (Fulfilled JUndefined, set_cells (<[ref c := r]> (cells w1)) w1)) /\
    (forall reason w1,
       continue (Rejected reason) w1
         = (Fulfilled JUndefined,
            set_cells (<[ref c := JUndefined]> (cells w1))
              (set_console
                 (console w1 ++ [[JStr "useReactiveOptional setAsync failed:"; reason]])
                 w1))).
Proof.
  intros E. injection E as <- <-. eexists. split; [reflexivity |].
  split; reflexivity.
Qed.

(** Reading the view of a cell that holds [v]. *)
Lemma view_of_cell (source : Vue.Ref) (v : JsValue) (w : World) :
  cells w !! source = Some v ->
  result_of (let* o := Vue.read (refAsOptional source) in Optional.unwrap o) w = Ok v /\
  result_of (let* o := Vue.read (refAsOptional source) in Optional.isEmpty o) w
    = Ok (is_marker v).
Proof.
  intros H. unfold result_of.
  assert (E : Vue.read (refAsOptional source) w = createOptional v w)
    by (rewrite run_view_read; now rewrite H).
  erewrite !bind_ok by exact E.
  now rewrite run_unwrap, run_isEmpty, holds_created.
Qed.

(** C3.  For a container made by [useReactiveOptional] and a promise passed
    to [setAsync]: the call suspends on the promise without touching the
    world.  Resumed with a fulfilment [r], it stores [r] in the cell, so
    that the view is Present with [r] when [r] is no absence marker and
    Absent when it is one.  Resumed with a rejection, it reports to
    [console.error] exactly once, stores [undefined] (the view is Absent),
    and the promise [setAsync] returned is fulfilled all the same. *)
Theorem setAsync_settles_into_cell
    (initialValue : option JsValue) (w0 w0' : World) (c : ReactiveOptional)
    (promise : Promise) (w : World) :
  useReactiveOptional initialValue w0 = (Ok c, w0') ->
  exists continue,
    setAsync c promise w = (Ok (Waiting promise continue), w) /\
    forall w1, (ref c < length (cells w1))%nat ->
      (forall r, ~ absence_marker r ->
         fst (continue (Fulfilled r) w1) = Fulfilled JUndefined /\
         cells (snd (continue (Fulfilled r) w1)) !! ref c = Some r /\
         console (snd (continue (Fulfilled r) w1)) = console w1 /\
         result_of (let* o := Vue.read (optional c) in Optional.isPresent o)
           (snd (continue (Fulfilled r) w1)) = Ok true /\
         result_of (let* o := Vue.read (optional c) in Optional.unwrap o)
           (snd (continue (Fulfilled r) w1)) = Ok r) /\
      (forall m, absence_marker m ->
         fst (continue (Fulfilled m) w1) = Fulfilled JUndefined /\
         cells (snd (continue (Fulfilled m) w1)) !! ref c = Some m /\
         result_of (let* o := Vue.read (optional c) in Optional.isEmpty o)
           (snd (continue (Fulfilled m) w1)) = Ok true) /\
      (forall reason,
         fst (continue (Rejected reason) w1) = Fulfilled JUndefined /\
         console (snd (continue (Rejected reason) w1))
           = console w1 ++ [[JStr "useReactiveOptional setAsync failed:"; reason]] /\
         cells (snd (continue (Rejected reason) w1)) !! ref c = Some JUndefined /\
         result_of (let* o := Vue.read (optional c) in Optional.isEmpty o)
           (snd (continue (Rejected reason) w1)) = Ok true).
Proof.
  intros E.
  destruct (run_setAsync _ _ _ _ promise w E) as (continue & Hcall & Hok & Hrej).
  destruct (container_created _ _ _ _ E) as (Hview & _ & _).
  exists continue. split; [exact Hcall |].
  intros w1 Hlive. rewrite Hview.
  assert (Hcell : forall v l,
            cells (set_cells (<[ref c := v]> (cells w1)) (set_console l w1))
              !! ref c = Some v)
    by (intros v l; cbn; now apply list_lookup_insert_eq).
  split; [| split].
  - intros r Hr. rewrite Hok. cbn [fst snd].
    assert (Hc : cells (set_cells (<[ref c := r]> (cells w1)) w1) !! ref c = Some r)
      by (cbn; now apply list_lookup_insert_eq).
    destruct (view_of_cell _ _ _ Hc) as [Hu He].
    repeat split; try assumption.
    unfold result_of in *.
    assert (Ev : Vue.read (refAsOptional (ref c))
                   (set_cells (<[ref c := r]> (cells w1)) w1)
                 = createOptional r (set_cells (<[ref c := r]> (cells w1)) w1))
      by (rewrite run_view_read; now rewrite Hc).
    erewrite bind_ok by exact Ev.
    rewrite run_isPresent, holds_created.
    apply is_marker_false in Hr. now rewrite Hr.
  - intros m Hm. rewrite Hok. cbn [fst snd].
    assert (Hc : cells (set_cells (<[ref c := m]> (cells w1)) w1) !! ref c = Some m)
      by (cbn; now apply list_lookup_insert_eq).
    destruct (view_of_cell _ _ _ Hc) as [_ He].
    apply is_marker_spec in Hm. rewrite Hm in He. repeat split; assumption.
  - intros reason. rewrite Hrej. cbn [fst snd].
    destruct (view_of_cell _ _ _ (Hcell JUndefined
                (console w1 ++ [[JStr "useReactiveOptional setAsync failed:"; reason]])))
      as [_ He].
    repeat split; try assumption. apply Hcell.
Qed.

Lemma setAsync_settles_into_cell_witness :
  exists c w',
    useReactiveOptional (Some (JStr "old")) initial_world = (Ok c, w') /\
    exists continue,
      setAsync c 7%nat w' = (Ok (Waiting 7%nat continue), w') /\
      fst (continue (Fulfilled (JStr "new")) w') = Fulfilled JUndefined /\
      cells (snd (continue (Fulfilled (JStr "new")) w')) !! ref c = Some (JStr "new") /\
      fst (continue (Rejected (JStr "failed")) w') = Fulfilled JUndefined.
Proof.
  do 2 eexists. split; [reflexivity |].
  destruct (setAsync_settles_into_cell (Some (JStr "old")) initial_world _ _
              7%nat (mkWorld [] [JStr "old"] [] 0 0) eq_refl)
    as (continue & Hcall & Hresume).
  exists continue. split; [exact Hcall |].
  destruct (Hresume (mkWorld [] [JStr "old"] [] 0 0)) as (Hok & _ & Hrej).
  - cbn. lia.
  - destruct (Hok (JStr "new")) as (H1 & H2 & _).
    + intros [H | H]; discriminate H.
    + split; [exact H1 |]. split; [exact H2 |]. apply (Hrej (JStr "failed")).
Defined.

(** ** [orElseGetAsync] *)

(** C7.  On a Present Optional, [orElseGetAsync] hands back a promise
    already fulfilled with the held value and the supplier is not invoked
    (nothing it could do has happened; a probe around it does not count).
    On an Absent one the supplier is invoked once: the world is the one its
    single run leaves, the call waits for the promise it returned, and the
    promise handed to the caller settles as that one does, fulfilled with
    its value or rejected with its reason.  A supplier that throws rejects
    the promise handed to the caller. *)
Theorem orElseGetAsync_present_or_supplier
    (opt : Optional) (supplier : M Promise) (w : World) :
  (Present opt w ->
     orElseGetAsync opt supplier w = (Ok (Settled (Fulfilled (holds opt w))), w) /\
     calls (world_after (orElseGetAsync opt (probe0 supplier)) w) = calls w) /\
  (Absent opt w ->
     (forall p w', supplier w = (Ok p, w') ->
        exists continue,
          orElseGetAsync opt supplier w = (Ok (Waiting p continue), w') /\
          (forall v w1, continue (Fulfilled v) w1 = (Fulfilled v, w1)) /\
          (forall reason w1, continue (Rejected reason) w1 = (Rejected reason, w1))) /\
     (forall e w', supplier w = (Throw e, w') ->
        orElseGetAsync opt supplier w = (Ok (Settled (Rejected e)), w')) /\
     ((forall w0, calls (world_after supplier w0) = calls w0) ->
        calls (world_after (orElseGetAsync opt (probe0 supplier)) w) = S (calls w))).
Proof.
  assert (Hrun : forall s : M Promise,
            orElseGetAsync opt s w =
              if is_marker (holds opt w)
              then async (let* p := s in ret (Suspended p (fun r => awaited r))) w
              else (Ok (Settled (Fulfilled (holds opt w))), w)).
  { intros s. unfold orElseGetAsync, async, bind at 1.
    rewrite run_isPresent.
    destruct (is_marker (holds opt w)) eqn:E; cbn [negb]; [reflexivity |].
    unfold bind. rewrite run_get, E. reflexivity. }
  split.
  - intros Hp. apply Present_iff, is_marker_false in Hp.
    unfold world_after. now rewrite !Hrun, Hp.
  - intros Ha. apply Absent_iff, is_marker_spec in Ha.
    unfold world_after. rewrite !Hrun, Ha. split; [| split].
    + intros p w' Hs. unfold async. erewrite bind_ok by exact Hs.
      eexists. split; [reflexivity |]. split; reflexivity.
    + intros e w' Hs. unfold async. now erewrite bind_throw by exact Hs.
    + intros Hquiet. specialize (Hquiet (set_calls (S (calls w)) w)).
      unfold world_after in Hquiet. unfold async, bind, probe0.
      destruct (supplier (set_calls (S (calls w)) w)) as [[p | e] w'];
        cbn in *; exact Hquiet.
Qed.

Lemma orElseGetAsync_present_or_supplier_witness :
  orElseGetAsync 0%nat (ret 3%nat) (mkWorld [JStr "hello"] [] [] 0 0)
    = (Ok (Settled (Fulfilled (JStr "hello"))), mkWorld [JStr "hello"] [] [] 0 0) /\
  calls (world_after (orElseGetAsync 0%nat (probe0 (ret 3%nat)))
           (mkWorld [JNull] [] [] 0 0)) = 1%nat.
Proof.
  split.
  - exact (proj1 (proj1 (orElseGetAsync_present_or_supplier 0%nat (ret 3%nat)
                           (mkWorld [JStr "hello"] [] [] 0 0)) eq_refl)).
  - destruct (proj2 (orElseGetAsync_present_or_supplier 0%nat (ret 3%nat)
                       (mkWorld [JNull] [] [] 0 0)) eq_refl) as (_ & _ & H).
    apply H. intros w0. reflexivity.
Defined.

(** ** [optionalPath] and [useMaybePath] *)

Lemma run_hasValue (this : MaybeOperations) (w : World) :
  Vue.value (Maybe.hasValue this) w = (Ok (negb (is_marker (holds this w))), w).
Proof.
  unfold Maybe.hasValue, Maybe.unwrap, Vue.value, Vue.computed.
  cbn [Vue.getter]. unfold bind at 1. rewrite run_captured.
  destruct (holds this w) eqn:E; cbn [strict_neq strict_eq negb is_marker];
    try reflexivity;
    unfold bind; rewrite run_captured, E; reflexivity.
Qed.

Lemma run_maybe_isEmpty (this : MaybeOperations) (w : World) :
  Vue.value (Maybe.isEmpty this) w = (Ok (is_marker (holds this w)), w).
Proof.
  unfold Maybe.isEmpty, Maybe.unwrap, Vue.value, Vue.computed.
  cbn [Vue.getter]. unfold bind at 1. rewrite run_captured.
  destruct (holds this w) eqn:E; cbn [strict_neq strict_eq negb is_marker];
    try reflexivity;
    unfold bind; rewrite run_captured, E; reflexivity.
Qed.

Lemma run_useMaybe_map (this : MaybeOperations) (fn : JsValue -> M JsValue) (w : World) :
  Maybe.map this fn w =
    if is_marker (holds this w) then useMaybe JUndefined w
    else (let* mapped := fn (holds this w) in useMaybe mapped) w.
Proof.
  unfold Maybe.map, Vue.computed. unfold Vue.value at 1. cbn [Vue.getter].
  unfold bind at 1 2. rewrite run_hasValue.
  destruct (is_marker (holds this w)); cbn [negb]; [reflexivity |].
  unfold bind, Vue.value, Maybe.unwrap, Vue.computed. cbn [Vue.getter].
  now rewrite run_captured.
Qed.

(** What the two kinds of wrapper report agrees on every frame. *)
Lemma maybe_observes_as_optional (r : nat) (w : World) :
  Vue.value (Maybe.unwrap r) w = Optional.unwrap r w /\
  Vue.value (Maybe.isEmpty r) w = Optional.isEmpty r w /\
  Vue.value (Maybe.hasValue r) w = Optional.isPresent r w.
Proof.
  rewrite run_unwrap, run_isEmpty, run_isPresent, run_hasValue, run_maybe_isEmpty.
  repeat split.
Qed.

(** C8.  [optionalPath(obj, accessor)] is [Optional.of(obj).map(accessor)],
    and [useMaybePath(obj, accessor)] does the same on its own kind of
    wrapper: the same effects, the same exception if the accessor throws,
    and a result with the same presence state and unwrapped value.  When
    [obj] is an absence marker the accessor is not invoked and the result
    is Absent; an exception of the accessor comes out of the call as it
    is. *)
Theorem optionalPath_is_of_then_map
    (obj : JsValue) (accessor : JsValue -> M JsValue) (w : World) :
  optionalPath obj accessor w
    = (let* o := Optional.of_ obj in Optional.map o accessor) w /\
  match useMaybePath obj accessor w,
        (let* o := Optional.of_ obj in Optional.map o accessor) w with
  | (Ok m, w1), (Ok o, w2) =>
      w1 = w2 /\
      result_of (Vue.value (Maybe.unwrap m)) w1 = result_of (Optional.unwrap o) w2 /\
      result_of (Vue.value (Maybe.isEmpty m)) w1 = result_of (Optional.isEmpty o) w2
  | (Throw e1, w1), (Throw e2, w2) => e1 = e2 /\ w1 = w2
  | _, _ => False
  end /\
  (absence_marker obj ->
     optionalPath obj accessor w
       = (let* o := Optional.of_ obj in Optional.empty) w /\
     calls (world_after (optionalPath obj (probe accessor)) w) = calls w /\
     calls (world_after (useMaybePath obj (probe accessor)) w) = calls w /\
     (forall r w', optionalPath obj accessor w = (Ok r, w') -> Absent r w')) /\
  (forall e w', accessor obj (world_after (Optional.of_ obj) w) = (Throw e, w') ->
     ~ absence_marker obj ->
     optionalPath obj accessor w = (Throw e, w') /\
     useMaybePath obj accessor w = (Throw e, w')).
Proof.
  set (o := length (frames w)).
  set (w0 := set_frames (frames w ++ [obj]) w).
  assert (Ho : holds o w0 = obj) by apply holds_created.
  assert (Eopt : forall f, optionalPath obj f w =
            if is_marker obj then createOptional JUndefined w0
            else (let* mapped := f obj in createOptional mapped) w0).
  { intros f. unfold optionalPath. rewrite run_of_then. fold o w0.
    now rewrite run_map, Ho. }
  assert (Emay : forall f, useMaybePath obj f w =
            if is_marker obj then createOptional JUndefined w0
            else (let* mapped := f obj in createOptional mapped) w0).
  { intros f. unfold useMaybePath.
    change (useMaybe obj) with (Optional.of_ obj). rewrite run_of_then.
    fold o w0. now rewrite run_useMaybe_map, Ho. }
  split; [reflexivity |]. split; [| split].
  - change ((let* o := Optional.of_ obj in Optional.map o accessor) w)
      with (optionalPath obj accessor w).
    rewrite Emay, Eopt.
    destruct (is_marker obj).
    + cbn [createOptional]. split; [reflexivity |]. unfold result_of.
      now destruct (maybe_observes_as_optional (length (frames w0))
                      (set_frames (frames w0 ++ [JUndefined]) w0)) as (-> & -> & _).
    + unfold bind. destruct (accessor obj w0) as [[mapped | e] w1].
      * cbn [createOptional]. split; [reflexivity |]. unfold result_of.
        now destruct (maybe_observes_as_optional (length (frames w1))
                        (set_frames (frames w1 ++ [mapped]) w1)) as (-> & -> & _).
      * now split.
  - intros Hobj. apply is_marker_spec in Hobj.
    unfold world_after. rewrite !Eopt, !Emay, Hobj.
    split; [reflexivity |]. split; [reflexivity |]. split; [reflexivity |].
    intros r w' E. apply Absent_iff.
    rewrite (created_holds _ _ _ _ E). now right.
  - intros e w' Hacc Hobj. apply is_marker_false in Hobj.
    rewrite Eopt, Emay, Hobj. split; now erewrite bind_throw by exact Hacc.
Qed.

Lemma optionalPath_is_of_then_map_witness :
  optionalPath JUndefined (fun _ => throw (JStr "boom")) initial_world
    = (let* o := Optional.of_ JUndefined in Optional.empty) initial_world /\
  optionalPath (JObj 1) (fun _ => throw (JStr "boom")) initial_world
    = (Throw (JStr "boom"), mkWorld [JObj 1] [] [] 0 0).
Proof.
  destruct (optionalPath_is_of_then_map JUndefined
              (fun _ => throw (JStr "boom")) initial_world) as (_ & _ & Habs & _).
  destruct (optionalPath_is_of_then_map (JObj 1)
              (fun _ => throw (JStr "boom")) initial_world) as (_ & _ & _ & Hthrow).
  split.
  - apply Habs. right. reflexivity.
  - apply (Hthrow (JStr "boom") (mkWorld [JObj 1] [] [] 0 0) eq_refl).
    intros [H | H]; discriminate H.
Defined.

(** ** The scenarios of the test suite, evaluated *)

(** [Optional.of(null).equals(Optional.of(undefined))]: both markers are
    the one Absent state. *)
Example markers_are_equal :
  result_of
    (let* a := Optional.of_ JNull in
     let* b := Optional.of_ JUndefined in
     Optional.equals a b) initial_world = Ok true.
Proof. reflexivity. Qed.

(** "should handle rejected promise": a container that starts with
    ['initial'], [setAsync] of a promise that is rejected. *)
Example setAsync_rejected_scenario :
  match (let* c := useReactiveOptional (Some (JStr "initial")) in
         let* call := setAsync c 0%nat in
         ret (c, call)) initial_world with
  | (Ok (c, Waiting _ continue), w) =>
      let (s, w') := continue (Rejected (JError 0 "failed")) w in
      s = Fulfilled JUndefined /\
      cells w' = [JUndefined] /\
      console w' = [[JStr "useReactiveOptional setAsync failed:"; JError 0 "failed"]] /\
      result_of (let* o := Vue.read (optional c) in Optional.isEmpty o) w' = Ok true
  | _ => False
  end.
Proof. cbn. repeat split. Qed.

(** "should call supplier when empty" and "should return value when
    present", for [orElseGet] with a probed supplier. *)
Example orElseGet_laziness :
  (let* o := Optional.of_ (JStr "hello") in
   Optional.orElseGet o (probe0 (ret (JStr "default")))) initial_world
    = (Ok (JStr "hello"), mkWorld [JStr "hello"] [] [] 0 0) /\
  (let* o := Optional.of_ JNull in
   Optional.orElseGet o (probe0 (ret (JStr "default")))) initial_world
    = (Ok (JStr "default"), mkWorld [JNull] [] [] 0 1).
Proof. split; reflexivity. Qed.

(** ** The other operations of [Optional] *)

Lemma run_orElseGet (this : Optional) (supplier : M JsValue) (w : World) :
  Optional.orElseGet this supplier w =
    if is_marker (holds this w) then supplier w else (Ok (holds this w), w).
Proof.
  unfold Optional.orElseGet, bind at 1. rewrite run_isPresent.
  destruct (is_marker (holds this w)); reflexivity.
Qed.

Lemma run_orElse (this : Optional) (other : JsValue) (w : World) :
  Optional.orElse this other w =
    (Ok (if is_marker (holds this w) then other else holds this w), w).
Proof.
  unfold Optional.orElse, bind at 1. rewrite run_isPresent.
  destruct (is_marker (holds this w)); reflexivity.
Qed.

Lemma run_ifPresentOrElse (this : Optional) (action : JsValue -> M unit)
    (emptyAction : M unit) (w : World) :
  Optional.ifPresentOrElse this action emptyAction w =
    if is_marker (holds this w) then emptyAction w else action (holds this w) w.
Proof.
  unfold Optional.ifPresentOrElse, bind at 1. rewrite run_isPresent.
  destruct (is_marker (holds this w)); reflexivity.
Qed.

Lemma run_ifPresent (this : Optional) (consumer : JsValue -> M unit) (w : World) :
  Optional.ifPresent this consumer w =
    if is_marker (holds this w) then (Ok tt, w) else consumer (holds this w) w.
Proof.
  unfold Optional.ifPresent, bind at 1. rewrite run_isPresent.
  destruct (is_marker (holds this w)); reflexivity.
Qed.

Lemma run_equals (this other : Optional) (w : World) :
  Optional.equals this other w =
    (Ok (if is_marker (holds this w) then is_marker (holds other w)
         else if is_marker (holds other w) then false
              else strict_eq (holds this w) (holds other w)), w).
Proof.
  unfold Optional.equals, bind at 1. rewrite run_isPresent.
  destruct (is_marker (holds this w)) eqn:E1; cbn [negb].
  - unfold bind, ret. now rewrite run_isEmpty, E1, run_isEmpty.
  - unfold bind at 1. rewrite run_isPresent.
    destruct (is_marker (holds other w)) eqn:E2; cbn [negb].
    + unfold bind. now rewrite run_isEmpty, E1.
    + unfold bind. now rewrite run_captured, run_unwrap.
Qed.

Lemma Absent_marker (this : Optional) (w : World) :
  Absent this w <-> is_marker (holds this w) = true.
Proof. rewrite Absent_iff. symmetry. apply is_marker_spec. Qed.

Lemma Present_marker (this : Optional) (w : World) :
  Present this w <-> is_marker (holds this w) = false.
Proof. rewrite Present_iff. symmetry. apply is_marker_false. Qed.

(** X1.  [filter] never invents a value.  On an Absent receiver the
    predicate is not invoked and the result holds the receiver's marker;
    on a Present one the predicate runs once on the held value, and the
    result is Present, holding that same value, exactly when it answered
    [true]. *)
Theorem filter_keeps_or_drops
    (this : Optional) (predicate : JsValue -> M bool) (w : World) :
  (Absent this w ->
     Optional.filter this predicate w = createOptional (holds this w) w /\
     calls (world_after (Optional.filter this (probe predicate)) w) = calls w) /\
  (Present this w ->
     forall keep w1, predicate (holds this w) w = (Ok keep, w1) ->
       exists r w',
         Optional.filter this predicate w = (Ok r, w') /\
         frames w' = frames w1 ++ [if keep then holds this w else JUndefined] /\
         (Present r w' <-> keep = true) /\
         (Present r w' -> holds r w' = holds this w)) /\
  (forall e w1, Present this w -> predicate (holds this w) w = (Throw e, w1) ->
     Optional.filter this predicate w = (Throw e, w1)).
Proof.
  split; [| split].
  - intros Ha. apply Absent_marker in Ha. unfold world_after.
    now rewrite !run_filter, Ha.
  - intros Hp keep w1 Hk. pose proof Hp as Hv. apply Present_marker in Hp.
    rewrite run_filter, Hp. erewrite bind_ok by exact Hk.
    destruct keep; do 2 eexists; (split; [reflexivity |]); cbn [frames set_frames];
      (split; [reflexivity |]); rewrite Present_marker, holds_created.
    + split; [split; [reflexivity | exact (fun _ => Hp)] | reflexivity].
    + split; [split; discriminate | discriminate].
  - intros e w1 Hp Hk. apply Present_marker in Hp.
    rewrite run_filter, Hp. now erewrite bind_throw by exact Hk.
Qed.

Lemma filter_keeps_or_drops_witness :
  Optional.filter 0%nat (pure (fun _ => true)) (mkWorld [JNull] [] [] 0 0)
    = createOptional JNull (mkWorld [JNull] [] [] 0 0) /\
  Optional.filter 0%nat (fun _ => throw (JStr "boom")) (mkWorld [JNum 3] [] [] 0 0)
    = (Throw (JStr "boom"), mkWorld [JNum 3] [] [] 0 0).
Proof.
  split.
  - exact (proj1 (proj1 (filter_keeps_or_drops 0%nat (pure (fun _ => true))
                           (mkWorld [JNull] [] [] 0 0)) eq_refl)).
  - exact (proj2 (proj2 (filter_keeps_or_drops 0%nat (fun _ => throw (JStr "boom"))
                           (mkWorld [JNum 3] [] [] 0 0)))
             (JStr "boom") _ eq_refl eq_refl).
Defined.

(** X2.  [or] is lazy.  On a Present receiver the supplier is not invoked
    and the result is a new instance that holds the same value; on an
    Absent one the call is the supplier's call, with its result, its
    effects and its exception. *)
Theorem or_is_lazy (this : Optional) (supplier : M Optional) (w : World) :
  (Present this w ->
     Optional.or this supplier w = createOptional (holds this w) w /\
     calls (world_after (Optional.or this (probe0 supplier)) w) = calls w /\
     forall r w', Optional.or this supplier w = (Ok r, w') ->
       fresh_in w r /\ Present r w' /\ holds r w' = holds this w) /\
  (Absent this w -> Optional.or this supplier w = supplier w).
Proof.
  split.
  - intros Hp. pose proof Hp as Hv. apply Present_marker in Hp.
    unfold world_after. rewrite !run_or, Hp. repeat split.
    + injection H as <- <-. apply created_is_fresh.
    + apply Present_marker. now rewrite (created_holds _ _ _ _ H).
    + exact (created_holds _ _ _ _ H).
  - intros Ha. apply Absent_marker in Ha. now rewrite run_or, Ha.
Qed.

Lemma or_is_lazy_witness :
  Optional.or 0%nat (throw (JStr "boom")) (mkWorld [JNum 0] [] [] 0 0)
    = createOptional (JNum 0) (mkWorld [JNum 0] [] [] 0 0) /\
  Optional.or 0%nat (throw (JStr "boom")) (mkWorld [JNull] [] [] 0 0)
    = (Throw (JStr "boom"), mkWorld [JNull] [] [] 0 0).
Proof.
  split.
  - exact (proj1 (proj1 (or_is_lazy 0%nat (throw (JStr "boom"))
                           (mkWorld [JNum 0] [] [] 0 0)) eq_refl)).
  - exact (proj2 (or_is_lazy 0%nat (throw (JStr "boom"))
                    (mkWorld [JNull] [] [] 0 0)) eq_refl).
Defined.

(** X3.  [orElseGet] is lazy and [orElse] is its eager form.  On a Present
    receiver [orElseGet] returns the held value, also a falsy one, without
    invoking the supplier and without any effect; on an Absent one it is
    the supplier's call.  [orElse(other)] is [orElseGet(() => other)]. *)
Theorem orElseGet_is_lazy (this : Optional) (supplier : M JsValue) (w : World) :
  (Present this w ->
     Optional.orElseGet this supplier w = (Ok (holds this w), w) /\
     calls (world_after (Optional.orElseGet this (probe0 supplier)) w) = calls w) /\
  (Absent this w -> Optional.orElseGet this supplier w = supplier w) /\
  (forall other, Optional.orElse this other w = Optional.orElseGet this (ret other) w).
Proof.
  split; [| split].
  - intros Hp. apply Present_marker in Hp. unfold world_after.
    now rewrite !run_orElseGet, Hp.
  - intros Ha. apply Absent_marker in Ha. now rewrite run_orElseGet, Ha.
  - intros other. rewrite run_orElse, run_orElseGet.
    destruct (is_marker (holds this w)); reflexivity.
Qed.

Lemma orElseGet_is_lazy_witness :
  Optional.orElseGet 0%nat (throw (JStr "boom")) (mkWorld [JNum 0] [] [] 0 0)
    = (Ok (JNum 0), mkWorld [JNum 0] [] [] 0 0) /\
  Optional.orElseGet 0%nat (ret (JStr "default")) (mkWorld [JNull] [] [] 0 0)
    = (Ok (JStr "default"), mkWorld [JNull] [] [] 0 0).
Proof.
  split.
  - exact (proj1 (proj1 (orElseGet_is_lazy 0%nat (throw (JStr "boom"))
                           (mkWorld [JNum 0] [] [] 0 0)) eq_refl)).
  - exact (proj1 (proj2 (orElseGet_is_lazy 0%nat (ret (JStr "default"))
                           (mkWorld [JNull] [] [] 0 0))) eq_refl).
Defined.

(** X4.  [ifPresentOrElse] runs exactly one of its two arguments: the
    action on the held value when Present, the empty action when Absent,
    and nothing else.  [ifPresent(consumer)] is [ifPresentOrElse] with an
    empty action that does nothing. *)
Theorem ifPresentOrElse_runs_one
    (this : Optional) (action : JsValue -> M unit) (emptyAction : M unit)
    (w : World) :
  (Present this w ->
     Optional.ifPresentOrElse this action emptyAction w = action (holds this w) w /\
     calls (world_after
              (Optional.ifPresentOrElse this action (probe0 emptyAction)) w)
       = calls (world_after (action (holds this w)) w)) /\
  (Absent this w ->
     Optional.ifPresentOrElse this action emptyAction w = emptyAction w /\
     calls (world_after
              (Optional.ifPresentOrElse this (probe action) emptyAction) w)
       = calls (world_after emptyAction w)) /\
  Optional.ifPresent this action w
    = Optional.ifPresentOrElse this action (ret tt) w.
Proof.
  split; [| split].
  - intros Hp. apply Present_marker in Hp. unfold world_after.
    now rewrite !run_ifPresentOrElse, Hp.
  - intros Ha. apply Absent_marker in Ha. unfold world_after.
    now rewrite !run_ifPresentOrElse, Ha.
  - now rewrite run_ifPresent, run_ifPresentOrElse.
Qed.

Lemma ifPresentOrElse_runs_one_witness :
  Optional.ifPresentOrElse 0%nat (fun v => console_error [v]) (throw (JStr "boom"))
    (mkWorld [JNum 42] [] [] 0 0)
    = (Ok tt, mkWorld [JNum 42] [] [[JNum 42]] 0 0) /\
  Optional.ifPresentOrElse 0%nat (fun v => console_error [v]) (throw (JStr "boom"))
    (mkWorld [JNull] [] [] 0 0)
    = (Throw (JStr "boom"), mkWorld [JNull] [] [] 0 0).
Proof.
  split.
  - exact (proj1 (proj1 (ifPresentOrElse_runs_one 0%nat (fun v => console_error [v])
                           (throw (JStr "boom")) (mkWorld [JNum 42] [] [] 0 0))
                    eq_refl)).
  - exact (proj1 (proj1 (proj2 (ifPresentOrElse_runs_one 0%nat
                                  (fun v => console_error [v])
                                  (throw (JStr "boom")) (mkWorld [JNull] [] [] 0 0)))
                    eq_refl)).
Defined.

(** X5.  [isPresent] and [isEmpty] are complementary answers about the same
    state, although each tests the two markers on its own: exactly one of
    them is true, and asking changes nothing. *)
Theorem isEmpty_complements_isPresent (this : Optional) (w : World) :
  exists b,
    Optional.isPresent this w = (Ok b, w) /\
    Optional.isEmpty this w = (Ok (negb b), w) /\
    (Present this w \/ Absent this w) /\
    ~ (Present this w /\ Absent this w).
Proof.
  exists (negb (is_marker (holds this w))).
  rewrite run_isPresent, run_isEmpty, Bool.negb_involutive.
  split; [reflexivity |]. split; [reflexivity |].
  rewrite Present_marker, Absent_marker.
  destruct (is_marker (holds this w)); split; auto; intros [H1 H2]; discriminate.
Qed.

Lemma strict_eq_sym (a b : JsValue) : strict_eq a b = strict_eq b a.
Proof.
  destruct a, b; cbn; try reflexivity.
  - now destruct b0, b.
  - apply Z.eqb_sym.
  - apply String.eqb_sym.
  - apply Nat.eqb_sym.
  - apply Nat.eqb_sym.
  - apply Nat.eqb_sym.
Qed.

Lemma strict_eq_self (v : JsValue) : strict_eq v v = true <-> v <> JNaN.
Proof.
  destruct v; cbn; try (split; [discriminate | reflexivity]).
  - split; [discriminate |]. intros _. now destruct b.
  - split; [discriminate |]. intros _. apply Z.eqb_refl.
  - split; [intros H; discriminate H | intros H; now elim H].
  - split; [discriminate |]. intros _. apply String.eqb_refl.
  - split; [discriminate |]. intros _. apply Nat.eqb_refl.
  - split; [discriminate |]. intros _. apply Nat.eqb_refl.
  - split; [discriminate |]. intros _. apply Nat.eqb_refl.
Qed.

(** X6.  [equals] answers [true] exactly when both Optionals are Absent
    (whichever markers they hold) or both are Present with [===]-equal
    values.  It never throws, changes nothing, and is symmetric. *)
Theorem equals_characterised (this other : Optional) (w : World) :
  exists b,
    Optional.equals this other w = (Ok b, w) /\
    (b = true <->
       (Absent this w /\ Absent other w) \/
       (Present this w /\ Present other w /\
        strict_eq (holds this w) (holds other w) = true)) /\
    Optional.equals other this w = (Ok b, w).
Proof.
  eexists. split; [apply run_equals |]. split.
  - rewrite !Present_marker, !Absent_marker.
    destruct (is_marker (holds this w)), (is_marker (holds other w));
      split; intros H; try tauto; try discriminate;
      try (destruct H as [[H1 H2] | [H1 [H2 H3]]]; congruence).
  - rewrite run_equals, (strict_eq_sym (holds other w)).
    now destruct (is_marker (holds this w)), (is_marker (holds other w)).
Qed.

(** X7.  [equals] is reflexive except on NaN: an Optional equals itself
    exactly when the value it holds is not NaN (for which [===] fails). *)
Theorem equals_reflexive_unless_NaN (this : Optional) (w : World) :
  result_of (Optional.equals this this) w = Ok true <-> holds this w <> JNaN.
Proof.
  unfold result_of. rewrite run_equals. cbn [fst].
  destruct (is_marker (holds this w)) eqn:E.
  - split; [| reflexivity]. intros _ H. now rewrite H in E.
  - rewrite <- strict_eq_self.
    split; [now intros [= ->] | now intros ->].
Qed.

(** X8.  [get()] is [orElseThrow()] without an error factory: the same
    value, the same new Error, the same effects. *)
Theorem get_is_orElseThrow_default (this : Optional) (w : World) :
  Optional.get this w = Optional.orElseThrow this None w.
Proof.
  rewrite run_get, run_orElseThrow.
  destruct (is_marker (holds this w)); reflexivity.
Qed.

Lemma run_map_pure (this : Optional) (f : JsValue -> JsValue) (w : World) :
  Optional.map this (pure f) w =
    createOptional (if is_marker (holds this w) then JUndefined
                    else f (holds this w)) w.
Proof. rewrite run_map. now destruct (is_marker (holds this w)). Qed.

Lemma run_filter_pure (this : Optional) (p : JsValue -> bool) (w : World) :
  Optional.filter this (pure p) w =
    createOptional (if is_marker (holds this w) then holds this w
                    else if p (holds this w) then holds this w
                         else JUndefined) w.
Proof.
  rewrite run_filter. destruct (is_marker (holds this w)); [reflexivity |].
  unfold bind, pure, ret. now destruct (p (holds this w)).
Qed.

Lemma run_created_then {A} (m : M Optional) (x : JsValue) (k : Optional -> M A)
    (w : World) :
  m w = createOptional x w ->
  (let* r := m in k r) w
    = k (length (frames w)) (set_frames (frames w ++ [x]) w).
Proof. intros E. unfold bind. now rewrite E. Qed.

(** X9.  Chaining [map]: for functions without effects, [map(f).map(g)]
    unwraps to [undefined] when the receiver is Absent or [f] returns an
    absence marker, and to [g(f(v))] otherwise.  So it agrees with
    [map(v => g(f(v)))] whenever [f] does not return a marker; when [f]
    does, the chain stops there and [g] is not invoked, whatever it
    is. *)
Theorem map_chain (this : Optional) (f g : JsValue -> JsValue) (w : World) :
  result_of
    (let* r := Optional.map this (pure f) in
     let* r2 := Optional.map r (pure g) in
     Optional.unwrap r2) w
  = Ok (if is_marker (holds this w) then JUndefined
        else if is_marker (f (holds this w)) then JUndefined
             else g (f (holds this w))) /\
  (Present this w -> ~ absence_marker (f (holds this w)) ->
     result_of
       (let* r := Optional.map this (pure f) in
        let* r2 := Optional.map r (pure g) in
        Optional.unwrap r2) w
     = result_of
         (let* r := Optional.map this (pure (fun v => g (f v))) in
          Optional.unwrap r) w) /\
  (Present this w -> absence_marker (f (holds this w)) ->
     forall g' : JsValue -> M JsValue,
       (let* r := Optional.map this (pure f) in Optional.map r g') w
       = (let* r := Optional.of_ (f (holds this w)) in Optional.empty) w).
Proof.
  assert (Hchain : forall k : Optional -> M JsValue,
            (let* r := Optional.map this (pure f) in k r) w
            = k (length (frames w))
                (set_frames
                   (frames w ++ [if is_marker (holds this w) then JUndefined
                                 else f (holds this w)]) w)).
  { intros k. apply run_created_then, run_map_pure. }
  split; [| split].
  - unfold result_of. rewrite Hchain.
    erewrite run_created_then by apply run_map_pure.
    rewrite run_unwrap, !holds_created. cbn [fst].
    now destruct (is_marker (holds this w)).
  - intros Hp Hf. apply Present_marker in Hp. apply is_marker_false in Hf.
    unfold result_of. rewrite Hchain.
    erewrite !run_created_then by apply run_map_pure.
    rewrite !run_unwrap, !holds_created. cbn [fst]. now rewrite Hp, Hf.
  - intros Hp Hf g'. apply Present_marker in Hp. apply is_marker_spec in Hf.
    erewrite run_created_then by apply run_map_pure.
    rewrite Hp, run_map, holds_created, Hf. reflexivity.
Qed.

Lemma map_chain_witness :
  result_of
    (let* r := Optional.map 0%nat (pure (fun _ => JStr "a")) in
     let* r2 := Optional.map r (pure (fun _ => JStr "b")) in
     Optional.unwrap r2) (mkWorld [JNum 1] [] [] 0 0)
  = result_of
      (let* r := Optional.map 0%nat (pure (fun _ => JStr "b")) in
       Optional.unwrap r) (mkWorld [JNum 1] [] [] 0 0) /\
  (let* r := Optional.map 0%nat (pure (fun _ => JNull)) in
   Optional.map r (fun _ => throw (JStr "boom"))) (mkWorld [JNum 1] [] [] 0 0)
  = (let* r := Optional.of_ JNull in Optional.empty) (mkWorld [JNum 1] [] [] 0 0).
Proof.
  split.
  - apply (map_chain 0%nat (fun _ => JStr "a") (fun _ => JStr "b")
             (mkWorld [JNum 1] [] [] 0 0)).
    + reflexivity.
    + intros [H | H]; discriminate H.
  - apply (map_chain 0%nat (fun _ => JNull) (fun v => v)
             (mkWorld [JNum 1] [] [] 0 0)).
    + reflexivity.
    + left. reflexivity.
Defined.

(** X10.  The usual chain [opt.map(f).orElse(fallback)], for [f] without
    effects: the fallback comes out exactly when the receiver is Absent or
    [f] returns an absence marker; otherwise [f(v)] does, also when it is
    falsy. *)
Theorem map_then_orElse
    (this : Optional) (f : JsValue -> JsValue) (fallback : JsValue) (w : World) :
  result_of
    (let* r := Optional.map this (pure f) in Optional.orElse r fallback) w
  = Ok (if is_marker (holds this w) || is_marker (f (holds this w))
        then fallback else f (holds this w)).
Proof.
  unfold result_of.
  erewrite run_created_then by apply run_map_pure.
  rewrite run_orElse, holds_created. cbn [fst].
  now destruct (is_marker (holds this w)), (is_marker (f (holds this w))).
Qed.

(** X11.  Chaining [filter], for predicates without effects:
    [filter(p).filter(q)] unwraps to what [filter(v => p(v) && q(v))]
    unwraps to, so the order of two filters does not matter. *)
Theorem filter_chain (this : Optional) (p q : JsValue -> bool) (w : World) :
  result_of
    (let* r := Optional.filter this (pure p) in
     let* r2 := Optional.filter r (pure q) in
     Optional.unwrap r2) w
  = result_of
      (let* r := Optional.filter this (pure (fun v => p v && q v)) in
       Optional.unwrap r) w /\
  result_of
    (let* r := Optional.filter this (pure p) in
     let* r2 := Optional.filter r (pure q) in
     Optional.unwrap r2) w
  = result_of
      (let* r := Optional.filter this (pure q) in
       let* r2 := Optional.filter r (pure p) in
       Optional.unwrap r2) w.
Proof.
  assert (Hchain : forall p1 p2 : JsValue -> bool,
            result_of
              (let* r := Optional.filter this (pure p1) in
               let* r2 := Optional.filter r (pure p2) in
               Optional.unwrap r2) w
            = Ok (if is_marker (holds this w) then holds this w
                  else if p1 (holds this w) && p2 (holds this w)
                       then holds this w else JUndefined)).
  { intros p1 p2. unfold result_of.
    erewrite run_created_then by apply run_filter_pure.
    erewrite run_created_then by apply run_filter_pure.
    rewrite run_unwrap, !holds_created. cbn [fst].
    destruct (is_marker (holds this w)) eqn:E; [now rewrite E |].
    destruct (p1 (holds this w)); cbn; [now rewrite E |]. reflexivity. }
  split.
  - rewrite Hchain. unfold result_of.
    erewrite run_created_then by apply run_filter_pure.
    now rewrite run_unwrap, holds_created.
  - rewrite !Hchain. now rewrite (Bool.andb_comm (q _)).
Qed.

(** ** More on the reactive adapters *)

Lemma run_view_read_at (source : Vue.Ref) (v : JsValue) (w : World) :
  cells w !! source = Some v ->
  Vue.read (refAsOptional source) w = createOptional v w.
Proof. intros H. rewrite run_view_read. now rewrite H. Qed.

(** X12.  The view follows the cell: after the cell of a [refAsOptional]
    view was assigned directly, reading the view gives an Optional that
    holds the assigned value, Present exactly when it is no absence
    marker. *)
Theorem view_follows_cell (source : Vue.Ref) (v : JsValue) (w : World) :
  (source < length (cells w))%nat ->
  result_of
    (Vue.set source v ;;
     let* o := Vue.read (refAsOptional source) in
     Optional.unwrap o) w = Ok v /\
  result_of
    (Vue.set source v ;;
     let* o := Vue.read (refAsOptional source) in
     Optional.isPresent o) w = Ok (negb (is_marker v)).
Proof.
  intros Hlive.
  assert (Hc : cells (set_cells (<[source := v]> (cells w)) w) !! source = Some v)
    by (cbn; now apply list_lookup_insert_eq).
  assert (Ev : Vue.read (refAsOptional source)
                 (set_cells (<[source := v]> (cells w)) w)
               = createOptional v (set_cells (<[source := v]> (cells w)) w))
    by (rewrite run_view_read; now rewrite Hc).
  unfold result_of.
  assert (Eset : Vue.set source v w = (Ok tt, set_cells (<[source := v]> (cells w)) w))
    by reflexivity.
  split.
  - erewrite bind_ok by exact Eset. erewrite bind_ok by exact Ev.
    now rewrite run_unwrap, holds_created.
  - erewrite bind_ok by exact Eset. erewrite bind_ok by exact Ev.
    now rewrite run_isPresent, holds_created.
Qed.

Lemma view_follows_cell_witness :
  result_of
    (Vue.set 0%nat (JNum 10) ;;
     let* o := Vue.read (refAsOptional 0%nat) in
     Optional.unwrap o) (mkWorld [] [JNum 5] [] 0 0) = Ok (JNum 10).
Proof.
  apply (view_follows_cell 0%nat (JNum 10) (mkWorld [] [JNum 5] [] 0 0)).
  cbn. lia.
Defined.

(** X13.  Writing an Optional to a [refAsOptional] view stores exactly what
    the Optional holds, which for an Absent one is the marker it carries
    ([null] stays [null]), and touches nothing else: every other cell,
    every frame and the console are as before. *)
Theorem view_write_touches_only_its_cell
    (source : Vue.Ref) (o : Optional) (w : World) :
  (source < length (cells w))%nat ->
  result_of (Vue.write (refAsOptional source) o) w = Ok tt /\
  cells (world_after (Vue.write (refAsOptional source) o) w) !! source
    = Some (holds o w) /\
  (forall other : Vue.Ref, other <> source ->
     cells (world_after (Vue.write (refAsOptional source) o) w) !! other
       = cells w !! other) /\
  length (cells (world_after (Vue.write (refAsOptional source) o) w))
    = length (cells w) /\
  frames (world_after (Vue.write (refAsOptional source) o) w) = frames w /\
  console (world_after (Vue.write (refAsOptional source) o) w) = console w.
Proof.
  intros Hlive. unfold result_of, world_after. rewrite run_view_write.
  cbn [fst snd cells frames console set_cells].
  split; [reflexivity |]. split; [now apply list_lookup_insert_eq |].
  split; [| split; [apply length_insert | split; reflexivity]].
  intros other Hne. now apply list_lookup_insert_ne.
Qed.

Lemma view_write_touches_only_its_cell_witness :
  cells (world_after (Vue.write (refAsOptional 1%nat) 0%nat)
           (mkWorld [JNull] [JStr "a"; JStr "b"] [] 0 0))
    !! 1%nat = Some JNull.
Proof.
  apply (view_write_touches_only_its_cell 1%nat 0%nat
           (mkWorld [JNull] [JStr "a"; JStr "b"] [] 0 0)).
  cbn. lia.
Defined.

(** X14.  A new container: [useReactiveOptional] makes a cell that did not
    exist, leaves every existing cell as it was, and its view reads as an
    Optional of the initial value, [undefined] when the argument is missing
    or [undefined]; so the container starts Present exactly when the
    initial value is no absence marker. *)
Theorem container_starts_with_initial
    (initialValue : option JsValue) (w w' : World) (c : ReactiveOptional) :
  useReactiveOptional initialValue w = (Ok c, w') ->
  cells w !! ref c = None /\
  cells w' = cells w ++ [default JUndefined initialValue] /\
  frames w' = frames w /\
  result_of (Vue.get (ref c)) w' = Ok (default JUndefined initialValue) /\
  result_of (let* o := Vue.read (optional c) in Optional.unwrap o) w'
    = Ok (default JUndefined initialValue) /\
  result_of (let* o := Vue.read (optional c) in Optional.isPresent o) w'
    = Ok (negb (is_marker (default JUndefined initialValue))).
Proof.
  intros E. destruct (container_created _ _ _ _ E) as (Hview & Href & ->).
  rewrite Hview, Href. clear E Hview Href c.
  set (w' := set_cells (cells w ++ [default JUndefined initialValue]) w).
  assert (Hc : cells w' !! length (cells w) = Some (default JUndefined initialValue))
    by (unfold w'; cbn; now rewrite lookup_app_r, Nat.sub_diag by lia).
  assert (Ev : Vue.read (refAsOptional (length (cells w))) w'
               = createOptional (default JUndefined initialValue) w')
    by (now apply run_view_read_at).
  split; [apply lookup_ge_None_2; lia |].
  split; [reflexivity |]. split; [reflexivity |].
  unfold result_of. split; [exact (f_equal (fun o => Ok (default JUndefined o)) Hc) |].
  split.
  - erewrite bind_ok by exact Ev. now rewrite run_unwrap, holds_created.
  - erewrite bind_ok by exact Ev. now rewrite run_isPresent, holds_created.
Qed.

Lemma container_starts_with_initial_witness :
  exists c w',
    useReactiveOptional None initial_world = (Ok c, w') /\
    result_of (let* o := Vue.read (optional c) in Optional.isPresent o) w' = Ok false.
Proof.
  do 2 eexists. split; [reflexivity |].
  apply (container_starts_with_initial None initial_world _ _ eq_refl).
Defined.

(** X15.  Two containers never share a cell: writing to the view of one
    leaves the cell of the other, made before or after it, as it was. *)
Theorem containers_are_independent
    (i1 i2 : option JsValue) (x : JsValue) (w : World) :
  result_of
    (let* c1 := useReactiveOptional i1 in
     let* c2 := useReactiveOptional i2 in
     let* o := Optional.of_ x in
     Vue.write (optional c1) o ;;
     let* v1 := Vue.get (ref c1) in
     let* v2 := Vue.get (ref c2) in
     ret (v1, v2)) w = Ok (x, default JUndefined i2) /\
  result_of
    (let* c1 := useReactiveOptional i1 in
     let* c2 := useReactiveOptional i2 in
     let* o := Optional.of_ x in
     Vue.write (optional c2) o ;;
     let* v1 := Vue.get (ref c1) in
     let* v2 := Vue.get (ref c2) in
     ret (v1, v2)) w = Ok (default JUndefined i1, x).
Proof.
  set (n := length (cells w)).
  assert (Hlen : length (cells w ++ [default JUndefined i1]) = S n)
    by (rewrite length_app; cbn; unfold n; lia).
  unfold result_of, bind. cbn. rewrite Hlen. fold n.
  rewrite !lookup_app_r, !Nat.sub_diag by lia. cbn.
  split.
  - rewrite list_lookup_insert_eq
      by (rewrite !length_app; cbn; fold n; lia).
    rewrite list_lookup_insert_ne by lia.
    rewrite lookup_app_r by (rewrite length_app; cbn; fold n; lia).
    rewrite Hlen, Nat.sub_diag. reflexivity.
  - rewrite list_lookup_insert_ne by lia.
    rewrite list_lookup_insert_eq
      by (rewrite !length_app; cbn; fold n; lia).
    rewrite lookup_app_l by (rewrite length_app; cbn; fold n; lia).
    rewrite lookup_app_r by (fold n; lia).
    fold n. rewrite Nat.sub_diag. reflexivity.
Qed.

(** X16.  The view of a container is the [refAsOptional] view of its own
    cell: the two pieces of code do the same on every read and every
    write, so what is written through the container's view is read back
    through a view made separately over [container.ref]. *)
Theorem container_view_is_refAsOptional
    (initialValue : option JsValue) (w w' : World) (c : ReactiveOptional) :
  useReactiveOptional initialValue w = (Ok c, w') ->
  (forall w1, Vue.read (optional c) w1 = Vue.read (refAsOptional (ref c)) w1) /\
  (forall o w1,
     Vue.write (optional c) o w1 = Vue.write (refAsOptional (ref c)) o w1) /\
  (forall x w1, (ref c < length (cells w1))%nat ->
     result_of
       (let* o := Optional.of_ x in
        Vue.write (optional c) o ;;
        let* o' := Vue.read (refAsOptional (ref c)) in
        Optional.unwrap o') w1 = Ok x).
Proof.
  intros E. destruct (container_created _ _ _ _ E) as (Hview & _ & _).
  rewrite Hview. split; [reflexivity |]. split; [reflexivity |].
  intros x w1 Hlive. unfold result_of.
  rewrite write_then_read by exact Hlive.
  now rewrite run_unwrap, holds_second_new.
Qed.

Lemma container_view_is_refAsOptional_witness :
  exists c w',
    useReactiveOptional (Some JNull) initial_world = (Ok c, w') /\
    result_of
      (let* o := Optional.of_ (JNum 30) in
       Vue.write (optional c) o ;;
       let* o' := Vue.read (refAsOptional (ref c)) in
       Optional.unwrap o') w' = Ok (JNum 30).
Proof.
  do 2 eexists. split; [reflexivity |].
  apply (container_view_is_refAsOptional (Some JNull) initial_world _ _ eq_refl).
  cbn. lia.
Defined.

(** X17.  With [setAsync], the promise that settles last wins.  Whatever
    the cell held, after a resumption it holds the fulfilment value, or
    [undefined] after a rejection; so of two calls on one container the
    one resumed last decides the content, in whichever order they were
    made: a request that settles late overwrites a newer result. *)
Theorem setAsync_last_settled_wins
    (initialValue : option JsValue) (w0 w0' : World) (c : ReactiveOptional)
    (p1 p2 : Promise) (wa wb : World) :
  useReactiveOptional initialValue w0 = (Ok c, w0') ->
  exists k1 k2,
    setAsync c p1 wa = (Ok (Waiting p1 k1), wa) /\
    setAsync c p2 wb = (Ok (Waiting p2 k2), wb) /\
    forall s1 s2 w1, (ref c < length (cells w1))%nat ->
      cells (snd (k1 s1 w1)) !! ref c = Some (content_after s1) /\
      cells (snd (k2 s2 (snd (k1 s1 w1)))) !! ref c = Some (content_after s2) /\
      cells (snd (k1 s1 (snd (k2 s2 w1)))) !! ref c = Some (content_after s1).
Proof.
  intros E.
  destruct (run_setAsync _ _ _ _ p1 wa E) as (k1 & Hc1 & Hok1 & Hrej1).
  destruct (run_setAsync _ _ _ _ p2 wb E) as (k2 & Hc2 & Hok2 & Hrej2).
  exists k1, k2. split; [exact Hc1 |]. split; [exact Hc2 |].
  assert (Hstep : forall k,
            (forall r w1, k (Fulfilled r) w1
               = (Fulfilled JUndefined, set_cells (<[ref c := r]> (cells w1)) w1)) ->
            (forall reason w1, k (Rejected reason) w1
               = (Fulfilled JUndefined,
                  set_cells (<[ref c := JUndefined]> (cells w1))
                    (set_console
                       (console w1 ++
                        [[JStr "useReactiveOptional setAsync failed:"; reason]])
                       w1))) ->
            forall s w1, (ref c < length (cells w1))%nat ->
              cells (snd (k s w1)) !! ref c = Some (content_after s) /\
              length (cells (snd (k s w1))) = length (cells w1)).
  { intros k Hok Hrej [r | reason] w1 Hlive.
    - rewrite Hok. cbn. split; [now apply list_lookup_insert_eq | apply length_insert].
    - rewrite Hrej. cbn. split; [now apply list_lookup_insert_eq | apply length_insert]. }
  intros s1 s2 w1 Hlive.
  destruct (Hstep k1 Hok1 Hrej1 s1 w1 Hlive) as [H1 L1].
  destruct (Hstep k2 Hok2 Hrej2 s2 w1 Hlive) as [_ L2].
  split; [exact H1 |]. split.
  - apply (Hstep k2 Hok2 Hrej2). now rewrite L1.
  - apply (Hstep k1 Hok1 Hrej1). now rewrite L2.
Qed.

Lemma setAsync_last_settled_wins_witness :
  exists c w',
    useReactiveOptional (Some (JStr "old")) initial_world = (Ok c, w') /\
    exists k1 k2,
      setAsync c 1%nat w' = (Ok (Waiting 1%nat k1), w') /\
      setAsync c 2%nat w' = (Ok (Waiting 2%nat k2), w') /\
      cells (snd (k1 (Rejected (JStr "late")) (snd (k2 (Fulfilled (JStr "new")) w'))))
        !! ref c = Some JUndefined.
Proof.
  do 2 eexists. split; [reflexivity |].
  destruct (setAsync_last_settled_wins (Some (JStr "old")) initial_world _ _
              1%nat 2%nat (mkWorld [] [JStr "old"] [] 0 0)
              (mkWorld [] [JStr "old"] [] 0 0) eq_refl)
    as (k1 & k2 & H1 & H2 & H).
  exists k1, k2. split; [exact H1 |]. split; [exact H2 |].
  apply (H (Rejected (JStr "late")) (Fulfilled (JStr "new"))
           (mkWorld [] [JStr "old"] [] 0 0)).
  cbn. lia.
Defined.

(** X18.  A resumed [setAsync] touches its own cell and, on a rejection,
    the console, and nothing else: every other cell and every frame are as
    before, no Optional is created, and a fulfilment reports nothing. *)
Theorem setAsync_touches_only_its_cell
    (initialValue : option JsValue) (w0 w0' : World) (c : ReactiveOptional)
    (promise : Promise) (w : World) :
  useReactiveOptional initialValue w0 = (Ok c, w0') ->
  exists continue,
    setAsync c promise w = (Ok (Waiting promise continue), w) /\
    forall s w1,
      frames (snd (continue s w1)) = frames w1 /\
      (forall other : Vue.Ref, other <> ref c ->
         cells (snd (continue s w1)) !! other = cells w1 !! other) /\
      length (cells (snd (continue s w1))) = length (cells w1) /\
      console (snd (continue s w1))
        = console w1 ++
          match s with
          | Fulfilled _ => []
          | Rejected reason =>
              [[JStr "useReactiveOptional setAsync failed:"; reason]]
          end.
Proof.
  intros E.
  destruct (run_setAsync _ _ _ _ promise w E) as (k & Hc & Hok & Hrej).
  exists k. split; [exact Hc |].
  intros [r | reason] w1.
  - rewrite Hok. cbn. split; [reflexivity |].
    split; [intros other Hne; now apply list_lookup_insert_ne |].
    split; [apply length_insert | now rewrite app_nil_r].
  - rewrite Hrej. cbn. split; [reflexivity |].
    split; [intros other Hne; now apply list_lookup_insert_ne |].
    split; [apply length_insert | reflexivity].
Qed.

Lemma setAsync_touches_only_its_cell_witness :
  exists c w',
    useReactiveOptional None (mkWorld [] [JStr "other"] [] 0 0) = (Ok c, w') /\
    exists continue,
      setAsync c 0%nat w' = (Ok (Waiting 0%nat continue), w') /\
      cells (snd (continue (Fulfilled (JNum 1)) w')) !! 0%nat = Some (JStr "other").
Proof.
  do 2 eexists. split; [reflexivity |].
  destruct (setAsync_touches_only_its_cell None (mkWorld [] [JStr "other"] [] 0 0)
              _ _ 0%nat (mkWorld [] [JStr "other"; JUndefined] [] 0 0) eq_refl)
    as (k & Hc & H).
  exists k. split; [exact Hc |].
  destruct (H (Fulfilled (JNum 1)) (mkWorld [] [JStr "other"; JUndefined] [] 0 0))
    as (_ & Hother & _).
  refine (Hother 0%nat _). discriminate.
Defined.

(** ** More on [useMaybe] *)

Lemma run_maybe_unwrap (this : MaybeOperations) (w : World) :
  Vue.value (Maybe.unwrap this) w = (Ok (holds this w), w).
Proof. reflexivity. Qed.

(** A Present wrapper exists in the store, and stays what it is in every
    world that extends it. *)
Lemma holds_extended (this : Optional) (w w1 : World) :
  is_marker (holds this w) = false ->
  frames w `prefix_of` frames w1 ->
  holds this w1 = holds this w.
Proof.
  intros Hp Hpre. unfold holds in *.
  destruct (frames w !! this) as [v |] eqn:E; [| discriminate Hp].
  exact (f_equal (default JUndefined) (prefix_lookup_Some _ _ _ _ E Hpre)).
Qed.

(** X19.  On the same frame, [useMaybe]'s [map] does what [Optional]'s
    [map] does, result, effects and exception alike, and its [flatMap] is
    its [map]. *)
Theorem maybe_map_is_optional_map
    (this : nat) (fn : JsValue -> M JsValue) (w : World) :
  Maybe.map this fn w = Optional.map this fn w /\
  Maybe.flatMap this fn w = Maybe.map this fn w.
Proof.
  split; [| reflexivity].
  rewrite run_useMaybe_map, run_map.
  destruct (is_marker (holds this w)); reflexivity.
Qed.

Lemma run_maybe_filter (this : MaybeOperations) (predicate : JsValue -> M bool)
    (w : World) :
  Maybe.filter this predicate w =
    if is_marker (holds this w) then useMaybe JUndefined w
    else
      match predicate (holds this w) w with
      | (Ok true, w1) => useMaybe (holds this w1) w1
      | (Ok false, w1) => useMaybe JUndefined w1
      | (Throw e, w1) => (Throw e, w1)
      end.
Proof.
  unfold Maybe.filter, Vue.computed. unfold Vue.value at 1. cbn [Vue.getter].
  unfold bind at 1 2. rewrite run_hasValue.
  destruct (is_marker (holds this w)); cbn [negb]; [reflexivity |].
  unfold bind at 1 2. rewrite run_maybe_unwrap.
  destruct (predicate (holds this w) w) as [[[] | e] w1]; reflexivity.
Qed.

(** X20.  [useMaybe]'s [filter] agrees with [Optional]'s on a Present
    wrapper (for a predicate that, like any code, cannot reach the
    captured value), but not on an Absent one: there it gives a wrapper of
    [undefined] without invoking the predicate, where [Optional.filter]
    keeps the marker it holds.  So [useMaybe(null).filter(p)] unwraps to
    [undefined] and [Optional.of(null).filter(p)] to [null]. *)
Theorem maybe_filter_normalises_marker
    (this : nat) (predicate : JsValue -> M bool) (w : World) :
  (Present this w -> (forall v, frame_stable (predicate v)) ->
     Maybe.filter this predicate w = Optional.filter this predicate w) /\
  (Absent this w ->
     Maybe.filter this predicate w = useMaybe JUndefined w /\
     result_of (let* r := Maybe.filter this predicate in Vue.value (Maybe.unwrap r)) w
       = Ok JUndefined /\
     result_of (let* r := Optional.filter this predicate in Optional.unwrap r) w
       = Ok (holds this w)).
Proof.
  split.
  - intros Hp Hstable. apply Present_marker in Hp.
    rewrite run_maybe_filter, run_filter, Hp. unfold bind.
    pose proof (Hstable (holds this w) w) as Hpre. unfold world_after in Hpre.
    destruct (predicate (holds this w) w) as [[[] | e] w1]; cbn [snd] in Hpre;
      try reflexivity.
    now rewrite (holds_extended this w w1 Hp Hpre).
  - intros Ha. apply Absent_marker in Ha. unfold result_of.
    rewrite run_maybe_filter, Ha. split; [reflexivity |]. split.
    + erewrite bind_ok by (rewrite run_maybe_filter, Ha; reflexivity).
      now rewrite run_maybe_unwrap, holds_created.
    + erewrite bind_ok by (rewrite run_filter, Ha; reflexivity).
      now rewrite run_unwrap, holds_created.
Qed.

Lemma maybe_filter_normalises_marker_witness :
  result_of (let* r := Maybe.filter 0%nat (pure (fun _ => true)) in
             Vue.value (Maybe.unwrap r)) (mkWorld [JNull] [] [] 0 0) = Ok JUndefined /\
  result_of (let* r := Optional.filter 0%nat (pure (fun _ => true)) in
             Optional.unwrap r) (mkWorld [JNull] [] [] 0 0) = Ok JNull /\
  Maybe.filter 0%nat (pure (fun _ => false)) (mkWorld [JNum 3] [] [] 0 0)
    = Optional.filter 0%nat (pure (fun _ => false)) (mkWorld [JNum 3] [] [] 0 0).
Proof.
  destruct (proj2 (maybe_filter_normalises_marker 0%nat (pure (fun _ => true))
                     (mkWorld [JNull] [] [] 0 0)) eq_refl) as (_ & H1 & H2).
  split; [exact H1 |]. split; [exact H2 |].
  apply (proj1 (maybe_filter_normalises_marker 0%nat (pure (fun _ => false))
                  (mkWorld [JNum 3] [] [] 0 0))).
  - reflexivity.
  - intros v w. reflexivity.
Defined.

(** X21.  [getOrThrow] returns the held value when there is one, whatever
    the argument.  When there is none it throws: the very Error object it
    was given; or a new Error with the given text; or, when the text is
    empty or the argument is missing, a new Error that reads
    "Value is not present". *)
Theorem getOrThrow_cases (this : MaybeOperations) (w : World) :
  (Present this w ->
     forall error, Maybe.getOrThrow this error w = (Ok (holds this w), w)) /\
  (Absent this w ->
     (forall addr message,
        Maybe.getOrThrow this (Some (ErrorObject addr message)) w
          = (Throw (JError addr message), w)) /\
     (forall text, text <> "" ->
        Maybe.getOrThrow this (Some (ErrorText text)) w
          = (Throw (JError (next_addr w) text), set_next_addr (S (next_addr w)) w)) /\
     Maybe.getOrThrow this None w
       = (Throw (JError (next_addr w) "Value is not present"),
          set_next_addr (S (next_addr w)) w) /\
     Maybe.getOrThrow this (Some (ErrorText "")) w = Maybe.getOrThrow this None w).
Proof.
  assert (Hrun : forall error,
            Maybe.getOrThrow this error w =
              if is_marker (holds this w) then
                match error with
                | Some (ErrorObject addr message) => (Throw (JError addr message), w)
                | _ => (Throw (JError (next_addr w)
                                 (text_or error "Value is not present")),
                        set_next_addr (S (next_addr w)) w)
                end
              else (Ok (holds this w), w)).
  { intros error. unfold Maybe.getOrThrow, bind at 1. rewrite run_hasValue.
    destruct (is_marker (holds this w)); cbn [negb]; [| reflexivity].
    destruct error as [[text | addr message] |]; reflexivity. }
  split.
  - intros Hp error. apply Present_marker in Hp. now rewrite Hrun, Hp.
  - intros Ha. apply Absent_marker in Ha.
    split; [| split; [| split]].
    + intros addr message. now rewrite Hrun, Ha.
    + intros text Htext. rewrite Hrun, Ha. cbn [text_or].
      destruct (String.eqb_spec text ""); [contradiction | reflexivity].
    + now rewrite Hrun, Ha.
    + now rewrite !Hrun, Ha.
Qed.

Lemma getOrThrow_cases_witness :
  Maybe.getOrThrow 0%nat (Some (ErrorText "Custom error")) (mkWorld [JUndefined] [] [] 0 0)
    = (Throw (JError 0 "Custom error"), mkWorld [JUndefined] [] [] 1 0) /\
  Maybe.getOrThrow 0%nat None (mkWorld [JNum 42] [] [] 0 0)
    = (Ok (JNum 42), mkWorld [JNum 42] [] [] 0 0).
Proof.
  split.
  - apply (proj2 (getOrThrow_cases 0%nat (mkWorld [JUndefined] [] [] 0 0)) eq_refl).
    discriminate.
  - exact (proj1 (getOrThrow_cases 0%nat (mkWorld [JNum 42] [] [] 0 0)) eq_refl None).
Defined.

(** X22.  The extraction methods of [useMaybe] agree with [Optional]'s on
    the same frame: the first read of [orElse(d)] and of [orElseGet(s)]
    gives what [Optional.orElse(d)] and [Optional.orElseGet(s)] return
    (so the supplier runs only when there is no value), and [ifPresent]
    is [Optional.ifPresent]. *)
Theorem maybe_extraction_is_optional_extraction (this : nat) (w : World) :
  (forall defaultValue,
     Vue.value (Maybe.orElse this defaultValue) w
       = Optional.orElse this defaultValue w) /\
  (forall supplier,
     Vue.value (Maybe.orElseGet this supplier) w
       = Optional.orElseGet this supplier w) /\
  (forall consumer,
     Maybe.ifPresent this consumer w = Optional.ifPresent this consumer w).
Proof.
  split; [| split].
  - intros d. rewrite run_orElse.
    unfold Maybe.orElse, Vue.computed. unfold Vue.value at 1. cbn [Vue.getter].
    unfold bind. rewrite run_hasValue.
    destruct (is_marker (holds this w)); reflexivity.
  - intros s. rewrite run_orElseGet.
    unfold Maybe.orElseGet, Vue.computed. unfold Vue.value at 1. cbn [Vue.getter].
    unfold bind. rewrite run_hasValue.
    destruct (is_marker (holds this w)); reflexivity.
  - intros c. rewrite run_ifPresent.
    unfold Maybe.ifPresent, bind at 1. rewrite run_hasValue.
    destruct (is_marker (holds this w)); reflexivity.
Qed.

(** ** The value type and the reactive state *)

Create HintDb blind discriminated.

Lemma blind_ret {A} (a : A) : reactive_blind (ret a).
Proof. intros w cs l. reflexivity. Qed.

Lemma blind_throw {A} (e : JsValue) : reactive_blind (@throw A e).
Proof. intros w cs l. reflexivity. Qed.

Lemma blind_bind {A B} (m : M A) (k : A -> M B) :
  reactive_blind m -> (forall a, reactive_blind (k a)) ->
  reactive_blind (bind m k).
Proof.
  intros Hm Hk w cs l. unfold bind at 1. rewrite Hm.
  unfold result_of, world_after, bind.
  destruct (m w) as [[a | e] w1]; cbn [fst snd]; [| reflexivity].
  now rewrite Hk.
Qed.

Lemma blind_captured (this : Optional) : reactive_blind (captured this).
Proof. intros w cs l. reflexivity. Qed.

Lemma blind_createOptional (value : JsValue) : reactive_blind (createOptional value).
Proof. intros w cs l. reflexivity. Qed.

Lemma blind_new_Error (message : string) : reactive_blind (new_Error message).
Proof. intros w cs l. reflexivity. Qed.

(** What is blind to the cells and the console leaves them as they are. *)
Lemma blind_kept {A} (m : M A) : reactive_blind m -> reactive_state_kept m.
Proof.
  intros Hm w. specialize (Hm w (cells w) (console w)).
  assert (Hw : set_cells (cells w) (set_console (console w) w) = w)
    by (now destruct w).
  rewrite Hw in Hm. unfold world_after.
  rewrite Hm at 1 2. cbn. now split.
Qed.

#[local] Hint Resolve blind_ret blind_throw blind_captured blind_createOptional
  blind_new_Error : blind.

Ltac step_blind :=
  repeat first
    [ progress intros
    | match goal with
      | |- reactive_blind (if ?b then _ else _) => destruct b
      | |- reactive_blind (match ?o with Some _ => _ | None => _ end) =>
          destruct o
      | H : _ /\ _ |- _ => destruct H
      end
    | solve [eauto with blind]
    | apply blind_bind ].

Lemma blind_isEmpty (this : Optional) : reactive_blind (Optional.isEmpty this).
Proof. unfold Optional.isEmpty. step_blind. Qed.

Lemma blind_isPresent (this : Optional) : reactive_blind (Optional.isPresent this).
Proof. unfold Optional.isPresent. step_blind. Qed.

#[local] Hint Resolve blind_isEmpty blind_isPresent : blind.

(** X23.  The value type does not know the reactive layer: no operation of
    an Optional reads, writes or creates an observable cell, or reports to
    the console.  As long as the user functions passed in do not, a call
    gives the same result and the same frames whatever the cells and the
    console contain (it does not read them), and it leaves both as they
    were (it does not write them). *)
Theorem operations_ignore_reactive_state (this : Optional) (op : Operation) :
  callbacks (@reactive_blind) op ->
  reactive_blind (invoke this op) /\
  reactive_state_kept (invoke this op) /\
  (forall w cs l,
     result_of (invoke this op) (set_cells cs (set_console l w))
       = result_of (invoke this op) w /\
     frames (world_after (invoke this op) (set_cells cs (set_console l w)))
       = frames (world_after (invoke this op) w)).
Proof.
  intros H.
  assert (Hblind : reactive_blind (invoke this op)).
  { destruct op; cbn [callbacks invoke] in *;
      unfold Optional.map, Optional.flatMap, Optional.filter, Optional.or,
        Optional.orElse, Optional.orElseGet, Optional.orElseThrow,
        Optional.ifPresent, Optional.ifPresentOrElse, Optional.equals,
        Optional.get, Optional.unwrap;
      step_blind. }
  split; [exact Hblind |]. split; [now apply blind_kept |].
  intros w cs l. unfold result_of at 1, world_after at 1.
  rewrite Hblind. now split.
Qed.

Lemma operations_ignore_reactive_state_witness :
  result_of (invoke 0%nat (OpFilter (pure (fun v => truthy v))))
    (mkWorld [JNum 3] [JStr "a"] [[JNull]] 0 0)
  = result_of (invoke 0%nat (OpFilter (pure (fun v => truthy v))))
      (mkWorld [JNum 3] [] [] 0 0).
Proof.
  refine (proj1 (proj2 (proj2 (operations_ignore_reactive_state 0%nat
                                 (OpFilter (pure (fun v => truthy v))) _))
                   (mkWorld [JNum 3] [] [] 0 0) [JStr "a"] [[JNull]])).
  intros v w cs l. reflexivity.
Defined.

(** X24.  The computed predicates of [useMaybe] report what [Optional]'s
    methods report on the same frame: [unwrap] the captured value,
    [hasValue] and [isEmpty] complementary answers, true for [isEmpty]
    exactly on the two absence markers. *)
Theorem maybe_predicates (this : nat) (w : World) :
  Vue.value (Maybe.unwrap this) w = Optional.unwrap this w /\
  Vue.value (Maybe.hasValue this) w = Optional.isPresent this w /\
  Vue.value (Maybe.isEmpty this) w = Optional.isEmpty this w /\
  exists b,
    Vue.value (Maybe.hasValue this) w = (Ok b, w) /\
    Vue.value (Maybe.isEmpty this) w = (Ok (negb b), w) /\
    (b = false <-> absence_marker (holds this w)).
Proof.
  rewrite run_hasValue, run_maybe_isEmpty, run_isPresent, run_isEmpty.
  repeat split.
  exists (negb (is_marker (holds this w))).
  rewrite Bool.negb_involutive, <- is_marker_spec.
  repeat split; destruct (is_marker (holds this w)); cbn; congruence.
Qed.

(** X25.  Writing back what was read: assigning to a view the Optional just
    read from it leaves every cell as it was. *)
Theorem view_read_then_write_is_identity (source : Vue.Ref) (w : World) :
  (source < length (cells w))%nat ->
  result_of
    (let* o := Vue.read (refAsOptional source) in
     Vue.write (refAsOptional source) o) w = Ok tt /\
  cells (world_after
           (let* o := Vue.read (refAsOptional source) in
            Vue.write (refAsOptional source) o) w) = cells w.
Proof.
  intros Hlive.
  destruct (lookup_lt_is_Some_2 (cells w) source Hlive) as [v Hv].
  unfold result_of, world_after.
  erewrite !bind_ok by (apply run_view_read_at; exact Hv).
  rewrite run_view_write, holds_created. cbn.
  split; [reflexivity |]. now apply list_insert_id.
Qed.

Lemma view_read_then_write_is_identity_witness :
  cells (world_after
           (let* o := Vue.read (refAsOptional 0%nat) in
            Vue.write (refAsOptional 0%nat) o) (mkWorld [] [JNull] [] 0 0))
    = [JNull].
Proof.
  apply (view_read_then_write_is_identity 0%nat (mkWorld [] [JNull] [] 0 0)).
  cbn. lia.
Defined.
